(** * abi_exporter: the certificate-expiry exporter of [main.go]

    A shallow embedding of the collection pipeline of [main.go]: the
    gauge vector [metric], [init], [readConfig], [fetchData], [round]
    and the polling loop of [main], together with the parts of the Go
    standard library they call ([time.Parse] for the layout
    ["2006-01-02 15:04:05"], [Time.Sub], [Duration.Hours], [math.Pow],
    [math.Round]).

    - [float64] values are IEEE 754 binary64 numbers, as [spec_float]
      with the operations of [SpecFloat] at precision 53;
    - the gauge vector is a finite map from the label values
      [(url, origin_prometheus)] to the last value set;
    - the file system, the network, the JSON decoder and the clock are
      an environment record [Env], read by the code; every call of
      [fetchData] reads them for itself, so a turn of the polling loop
      ([Turn]) gives each of its calls an environment of its own;
    - log lines and gauge updates are recorded in a trace. *)

From Stdlib Require Import ZArith Lia Ascii String List Bool.
From Stdlib Require Import Floats.SpecFloat.
From stdpp Require Import base option list gmap strings.

#[local] Set Warnings "-clear-no-such-hyp".

Local Open Scope Z_scope.

(** ** float64 *)

Module F64.

Definition prec : Z := 53.
Definition emax : Z := 1024.

Definition float64 : Type := spec_float.

(** Conversion of an integer, [float64(n)] (round to nearest even). *)
Definition of_Z (n : Z) : float64 := binary_normalize prec emax n 0 false.

Definition mul (x y : float64) : float64 := SFmul prec emax x y.
Definition div (x y : float64) : float64 := SFdiv prec emax x y.
Definition add (x y : float64) : float64 := SFadd prec emax x y.
Definition ltb (x y : float64) : bool := SFltb x y.
Definition leb (x y : float64) : bool := SFleb x y.
Definition eqb (x y : float64) : bool := SFeqb x y.

(** [m / 10^k] as a float64, for reading decimal constants. *)
Definition of_decimal (m : Z) (k : Z) : float64 := div (of_Z m) (of_Z (10 ^ k)).

End F64.

Export F64.

(** ** Package math *)

Module math.

(** [math.Signbit]. *)
Definition Signbit (x : float64) : bool :=
  match x with
  | S754_zero s | S754_infinity s | S754_finite s _ _ => s
  | S754_nan => false
  end.

Definition IsNaN (x : float64) : bool :=
  match x with S754_nan => true | _ => false end.

(** [math.Frexp] and [math.Ldexp]. *)
Definition Frexp (x : float64) : float64 * Z := SFfrexp prec emax x.
Definition Ldexp (x : float64) (e : Z) : float64 := SFldexp prec emax x e.

(** [math.Round]: the nearest integer, halfway cases away from zero;
    [Round(±0) = ±0], [Round(±Inf) = ±Inf], [Round(NaN) = NaN].  A
    finite float is [±m * 2^e]; with [e >= 0] it is an integer. *)
Definition Round (x : float64) : float64 :=
  match x with
  | S754_finite s m e =>
      if 0 <=? e then x
      else
        let d := 2 ^ (- e) in
        let q := Z.pos m / d in
        let r := Z.pos m mod d in
        let n := if d <=? 2 * r then q + 1 else q in
        binary_normalize prec emax (cond_Zopp s n) 0 s
  | _ => x
  end.

(** The loop of [math.Pow] over the bits of the integer part [yi] of
    the exponent: [x1 * 2^xe] is the running square, [a1 * 2^ae] the
    answer. *)
Fixpoint pow_loop (i : positive) (x1 : float64) (xe : Z) (a1 : float64) (ae : Z)
  : float64 * Z :=
  if (xe <? - 2 ^ 12) || (2 ^ 12 <? xe) then (a1, ae + xe)
  else
    let '(a1', ae') :=
      if Pos.testbit i 0 then (mul a1 x1, ae + xe) else (a1, ae) in
    let x1' := mul x1 x1 in
    let xe' := 2 * xe in
    let '(x1'', xe'') :=
      if ltb x1' (of_decimal 5 1) then (add x1' x1', xe' - 1) else (x1', xe') in
    match i with
    | xH => (a1', ae')
    | xO j | xI j => pow_loop j x1'' xe'' a1' ae'
    end.

(** [math.Pow(x, float64(n))] for a finite non-zero [x] and an integer
    exponent [n], the only use [round] makes of it. *)
Definition Pow (x : float64) (n : Z) : float64 :=
  match n with
  | 0 => of_Z 1
  | 1 => x
  | Z.pos p =>
      let '(x1, xe) := Frexp x in
      let '(a1, ae) := pow_loop p x1 xe (of_Z 1) 0 in
      Ldexp a1 ae
  | Z.neg p =>
      let '(x1, xe) := Frexp x in
      let '(a1, ae) := pow_loop p x1 xe (of_Z 1) 0 in
      Ldexp (div (of_Z 1) a1) (- ae)
  end.

End math.

(** ** Package time *)

Module time.

(** A [Time] is an instant: nanoseconds since the Unix epoch.  A
    [Duration] is an int64 count of nanoseconds. *)
Definition Time : Type := Z.
Definition Duration : Type := Z.

Definition Second : Z := 1000000000.
Definition Hour : Z := 60 * 60 * Second.
Definition minDuration : Duration := - 2 ^ 63.
Definition maxDuration : Duration := 2 ^ 63 - 1.

(** A [Location]: UTC, or a zone at a fixed offset (seconds east of
    UTC). *)
Inductive Location := UTC | FixedZone (offset : Z).

Definition zoneOffset (loc : Location) : Z :=
  match loc with UTC => 0 | FixedZone o => o end.

Definition isLeap (year : Z) : bool :=
  (year mod 4 =? 0) && (negb (year mod 100 =? 0) || (year mod 400 =? 0)).

Definition daysIn (month year : Z) : Z :=
  match month with
  | 2 => if isLeap year then 29 else 28
  | 4 | 6 | 9 | 11 => 30
  | _ => 31
  end.

(** Days in the year before the first of [month] in a non-leap year. *)
Definition daysBefore (month : Z) : Z :=
  match month with
  | 1 => 0 | 2 => 31 | 3 => 59 | 4 => 90 | 5 => 120 | 6 => 151
  | 7 => 181 | 8 => 212 | 9 => 243 | 10 => 273 | 11 => 304 | _ => 334
  end.

(** Days from 1970-01-01 to the given day of the proleptic Gregorian
    calendar. *)
Definition daysSinceEpoch (year month day : Z) : Z :=
  let y := year - 1 in
  365 * y + y / 4 - y / 100 + y / 400
  + daysBefore month + (if isLeap year && (3 <=? month) then 1 else 0)
  + (day - 1) - 719162.

(** [time.Date], for fields already in range: the instant at which
    the clock of [loc] shows the given date and time. *)
Definition Date (year month day hour min sec nsec : Z) (loc : Location) : Time :=
  let unix := daysSinceEpoch year month day * 86400 + hour * 3600 + min * 60 + sec in
  (unix - zoneOffset loc) * Second + nsec.

(** [Time.Sub]: [t - u], saturated to the range of a [Duration].  A
    parsed time has no monotonic clock reading, so the difference with
    [time.Now()] is that of the wall clocks. *)
Definition Sub (t u : Time) : Duration :=
  let d := t - u in
  if d <? minDuration then minDuration
  else if maxDuration <? d then maxDuration
  else d.

(** [Duration.Hours]; Go's [/] and [%] on integers truncate. *)
Definition Hours (d : Duration) : float64 :=
  let hour := Z.quot d Hour in
  let nsec := Z.rem d Hour in
  add (of_Z hour) (div (of_Z nsec) (of_Z (60 * 60 * 10 ^ 9))).

(** *** Parsing *)

Definition byte (c : ascii) : Z := Z.of_N (N_of_ascii c).

Definition isDigitChar (c : ascii) : bool := (48 <=? byte c) && (byte c <=? 57).

Definition digitVal (c : ascii) : Z := byte c - 48.

Definition commaOrPeriod (c : ascii) : bool := (byte c =? 46) || (byte c =? 44).

(** [getnum]: a one- or two-digit number; two digits when [fixed]. *)
Definition getnum (s : string) (fixed : bool) : option (Z * string) :=
  match s with
  | String c0 (String c1 rest) =>
      if isDigitChar c0 then
        if isDigitChar c1 then Some (digitVal c0 * 10 + digitVal c1, rest)
        else if fixed then None else Some (digitVal c0, String c1 rest)
      else None
  | String c0 EmptyString =>
      if isDigitChar c0 then (if fixed then None else Some (digitVal c0, EmptyString))
      else None
  | EmptyString => None
  end.

(** The four digits of [stdLongYear]. *)
Definition getyear (s : string) : option (Z * string) :=
  match s with
  | String c0 (String c1 (String c2 (String c3 rest))) =>
      if isDigitChar c0 && isDigitChar c1 && isDigitChar c2 && isDigitChar c3
      then Some (((digitVal c0 * 10 + digitVal c1) * 10 + digitVal c2) * 10 + digitVal c3, rest)
      else None
  | _ => None
  end.

(** [skip value prefix] for a one-byte prefix other than a space. *)
Definition skipByte (c : ascii) (s : string) : option string :=
  match s with
  | String c0 rest => if Ascii.eqb c0 c then Some rest else None
  | EmptyString => None
  end.

Fixpoint cutspace (s : string) : string :=
  match s with
  | String c rest => if Ascii.eqb c " " then cutspace rest else s
  | EmptyString => s
  end.

(** [skip value " "]: a space of the layout stands for any run of
    spaces, which a non-empty value has to start. *)
Definition skipSpace (s : string) : option string :=
  match s with
  | String c _ => if Ascii.eqb c " " then Some (cutspace s) else None
  | EmptyString => Some s
  end.

(** The leading digits of [s] and what follows them. *)
Fixpoint digits (s : string) : list Z * string :=
  match s with
  | String c rest =>
      if isDigitChar c then let '(ds, r) := digits rest in (digitVal c :: ds, r)
      else (nil, s)
  | EmptyString => (nil, s)
  end.

(** [parseNanoseconds]: the first nine digits after the separator,
    scaled to nanoseconds; further digits are dropped. *)
Definition parseNanoseconds (ds : list Z) : Z :=
  let ds9 := take 9 ds in
  fold_left (fun acc d => acc * 10 + d) ds9 0 * 10 ^ (9 - Z.of_nat (length ds9)).

(** A fractional second in the value that the layout does not have. *)
Definition getfrac (s : string) : Z * string :=
  match s with
  | String c0 (String c1 rest) =>
      if commaOrPeriod c0 && isDigitChar c1
      then let '(ds, r) := digits (String c1 rest) in (parseNanoseconds ds, r)
      else (0, s)
  | _ => (0, s)
  end.

(** The date and time a value shows, before it is placed on the time
    line. *)
Record Fields := {
  year : Z; month : Z; day : Z; hour : Z; min : Z; sec : Z; nsec : Z
}.

(** The field-reading part of [parse] for the layout
    ["2006-01-02 15:04:05"]: year, month, day, hour (one or two
    digits), minute, second, an optional fraction; then no text left
    and the day within the month. *)
Definition parseFields (value : string) : option Fields :=
  '(year, value) ← getyear value;
  value ← skipByte "-" value;
  '(month, value) ← getnum value true;
  guard (1 <= month <= 12);;
  value ← skipByte "-" value;
  '(day, value) ← getnum value true;
  value ← skipSpace value;
  '(hour, value) ← getnum value false;
  guard (hour < 24);;
  value ← skipByte ":" value;
  '(min, value) ← getnum value true;
  guard (min < 60);;
  value ← skipByte ":" value;
  '(sec, value) ← getnum value true;
  guard (sec < 60);;
  let '(nsec, value) := getfrac value in
  guard (value = EmptyString);;
  guard (1 <= day <= daysIn month year);;
  Some {| year := year; month := month; day := day;
          hour := hour; min := min; sec := sec; nsec := nsec |}.

(** [parse]: the layout has no zone, so the fields are read as a
    time in [defaultLocation]. *)
Definition parse (value : string) (defaultLocation : Location) : option Time :=
  f ← parseFields value;
  Some (Date (year f) (month f) (day f) (hour f) (min f) (sec f) (nsec f)
          defaultLocation).

(** [time.Parse(layout, value)] reads a value without zone in UTC;
    [time.ParseInLocation(layout, value, loc)] reads it in [loc]. *)
Definition Parse (value : string) : option Time := parse value UTC.
Definition ParseInLocation (value : string) (loc : Location) : option Time :=
  parse value loc.

(** *** Formatting *)

Definition digitChar (d : Z) : ascii := ascii_of_N (Z.to_N (48 + d)).

Definition pad2 (n : Z) (rest : string) : string :=
  String (digitChar (n / 10)) (String (digitChar (n mod 10)) rest).

Definition pad4 (n : Z) (rest : string) : string :=
  pad2 (n / 100) (pad2 (n mod 100) rest).

(** The fields written in the layout ["2006-01-02 15:04:05"], as
    [Time.Format] writes them. *)
Definition formatFields (f : Fields) : string :=
  pad4 (year f) (String "-" (pad2 (month f) (String "-" (pad2 (day f)
    (String " " (pad2 (hour f) (String ":" (pad2 (min f) (String ":"
      (pad2 (sec f) EmptyString)))))))))).

(** Fields that name a second of the calendar in years 0 to 9999. *)
Definition validFields (f : Fields) : Prop :=
  0 <= year f <= 9999 ∧ 1 <= month f <= 12 ∧ 1 <= day f <= daysIn (month f) (year f)
  ∧ 0 <= hour f < 24 ∧ 0 <= min f < 60 ∧ 0 <= sec f < 60 ∧ nsec f = 0.

End time.

(** ** The program *)

Local Open Scope string_scope.
Local Open Scope list_scope.

(** A decoded JSON value, for the [interface{}] fields. *)
#[local] Unset Elimination Schemes.
Inductive jsonValue :=
| JNull
| JBool (b : bool)
| JNumber (x : float64)
| JString (s : string)
| JArray (l : list jsonValue)
| JObject (l : list (string * jsonValue)).
#[local] Set Elimination Schemes.

Record APIData := { AuthorizerDate : string; DateLimit : string }.

Record APIResponse := {
  Status : Z;
  Message : jsonValue;
  Data : APIData;
  Error : jsonValue
}.

Record URLConfig := {
  URL : string;
  Label : string;
  OriginPrometheus : string
}.

Record Config := { URLs : list URLConfig }.

(** What the process can observe of its surroundings: the command
    line, the file system, the network, the JSON decoder, the clock and
    the local time zone. *)
Record Env := {
  (** the value given to [-config], if any *)
  flag_config : option string;
  (** [ioutil.ReadFile]: the bytes of a file, or an error *)
  ioutil_ReadFile : string -> option string;
  (** [json.Unmarshal] into a [Config] *)
  json_Unmarshal : string -> option Config;
  (** whether [http.NewRequest("POST", url, nil)] succeeds *)
  http_NewRequest : string -> bool;
  (** [http.DefaultClient.Do]: the response body, or an error *)
  http_Do : string -> option string;
  (** [json.NewDecoder(body).Decode] into an [APIResponse] *)
  json_Decode : string -> option APIResponse;
  (** [time.Now()] *)
  time_Now : time.Time;
  (** [time.Local] *)
  time_Local : time.Location
}.

(** The same surroundings in another time zone. *)
Definition with_Local (loc : time.Location) (w : Env) : Env :=
  {| flag_config := flag_config w;
     ioutil_ReadFile := ioutil_ReadFile w;
     json_Unmarshal := json_Unmarshal w;
     http_NewRequest := http_NewRequest w;
     http_Do := http_Do w;
     json_Decode := json_Decode w;
     time_Now := time_Now w;
     time_Local := loc |}.

(** Observable steps: a [log.Printf] line (format and its [%s]
    argument), a value set on a child of the gauge vector, the sleep of
    the polling loop, and the line of [log.Fatalf]. *)
Inductive Event :=
| LogPrintf (format : string) (arg : string)
| GaugeSet (url origin : string) (v : float64)
| Sleep (d : time.Duration)
| LogFatalf (format : string).

(** The gauge vector [metric] with labels [url] and
    [origin_prometheus], and the trace so far. *)
Record State := {
  metric : gmap (string * string) float64;
  trace : list Event
}.

Definition initial : State := {| metric := ∅; trace := [] |}.

(** The process goes on, or has called [os.Exit]. *)
Inductive Outcome :=
| Running (st : State)
| Exited (code : Z) (st : State).

Definition emit (e : Event) (st : State) : State :=
  {| metric := metric st; trace := trace st ++ [e] |}.

(** [metric.WithLabelValues(url, origin).Set(v)] *)
Definition WithLabelValues_Set (url origin : string) (v : float64) (st : State) : State :=
  {| metric := <[(url, origin) := v]> (metric st);
     trace := trace st ++ [GaugeSet url origin v] |}.

(** [log.Fatalf]: the line, then [os.Exit(1)]. *)
Definition log_Fatalf (format : string) (st : State) : Outcome :=
  Exited 1 (emit (LogFatalf format) st).

(** The constant [-1] set on every failure. *)
Definition minus_one : float64 := of_Z (-1).

Definition readConfig (w : Env) (filePath : string) : option Config :=
  match ioutil_ReadFile w filePath with
  | None => None
  | Some data => json_Unmarshal w data
  end.

(** The body of the loop of [init]. *)
Definition init_metric (urlConfig : URLConfig) (st : State) : State :=
  WithLabelValues_Set (URL urlConfig) (OriginPrometheus urlConfig) minus_one st.

(** [init], run on the state [st] the process has when it starts
    ([initial] in [process]). *)
Definition init (w : Env) (st : State) : Outcome :=
  let configFile := default "config.json" (flag_config w) in
  match readConfig w configFile with
  | None => log_Fatalf "Error reading config file: %v" st
  | Some config => Running (foldl (fun st urlConfig => init_metric urlConfig st) st (URLs config))
  end.

Definition round (value : float64) (precision : Z) : float64 :=
  let scale := math.Pow (of_Z 10) precision in
  div (math.Round (mul value scale)) scale.

Definition fetchData (w : Env) (urlConfig : URLConfig) (st : State) : State :=
  let set := WithLabelValues_Set (URL urlConfig) (OriginPrometheus urlConfig) in
  if negb (http_NewRequest w (URL urlConfig)) then
    set minus_one (emit (LogPrintf "Error creating POST request for %s: %v" (URL urlConfig)) st)
  else
  match http_Do w (URL urlConfig) with
  | None =>
      set minus_one (emit (LogPrintf "Error performing POST request to %s: %v" (URL urlConfig)) st)
  | Some body =>
  match json_Decode w body with
  | None =>
      set minus_one (emit (LogPrintf "Error decoding JSON response from %s: %v" (URL urlConfig)) st)
  | Some apiResponse =>
  if decide (DateLimit (Data apiResponse) = "") then
    set minus_one (emit (LogPrintf "DateLimit is empty for URL %s" (URL urlConfig)) st)
  else
  match time.Parse (DateLimit (Data apiResponse)) with
  | None =>
      set minus_one (emit (LogPrintf "Error parsing DateLimit from %s: %v" (URL urlConfig)) st)
  | Some dateLimit =>
      let currentTime := time_Now w in
      let dateDiff := div (time.Hours (time.Sub dateLimit currentTime)) (of_Z 24) in
      set (round dateDiff 2) st
  end end end.

Definition key (urlConfig : URLConfig) : string * string :=
  (URL urlConfig, OriginPrometheus urlConfig).

(** The value a call of [fetchData] leaves under its key. *)
Definition published (w : Env) (urlConfig : URLConfig) : float64 :=
  default minus_one (metric (fetchData w urlConfig initial) !! key urlConfig).

(** The gauge updates of a trace, in order. *)
Definition sets (tr : list Event) : list (string * string * float64) :=
  omap (fun e => match e with GaugeSet url origin v => Some (url, origin, v) | _ => None end) tr.

(** A batch of invocations, each with the surroundings it sees. *)
Definition fetchAll (jobs : list (Env * URLConfig)) (st : State) : State :=
  foldl (fun st job => fetchData (fst job) (snd job) st) st jobs.

(** What one turn of the polling loop sees.  The configuration is read
    in the surroundings [at_load]; every call of [fetchData] then reads
    the clock and the network for itself, so the [i]-th call of the
    turn has surroundings of its own, [at_call i]: the clock has moved
    on since the call before, and the same URL may be answered
    differently. *)
Record Turn := {
  at_load : Env;
  at_call : nat -> Env
}.

(** The calls of [fetchData] a turn makes for the descriptors [urls],
    in order, each with the surroundings it sees. *)
Definition turn_jobs (t : Turn) (urls : list URLConfig) : list (Env * URLConfig) :=
  imap (fun i urlConfig => (at_call t i, urlConfig)) urls.

(** One turn of the loop of [main]: read ["config.json"], fetch every
    endpoint, sleep ten hours. *)
Definition cycle (t : Turn) (st : State) : Outcome :=
  let configFile := "config.json" in
  match readConfig (at_load t) configFile with
  | None => log_Fatalf "Error reading config file: %v" st
  | Some config =>
      let st := fetchAll (turn_jobs t (URLs config)) st in
      Running (emit (Sleep (10 * time.Hour)) st)
  end.

(** The polling loop of [main], for as many turns as [ts] describes
    (the loop itself never ends). *)
Fixpoint main_loop (ts : list Turn) (st : State) : Outcome :=
  match ts with
  | [] => Running st
  | t :: ts' =>
      match cycle t st with
      | Running st' => main_loop ts' st'
      | Exited code st' => Exited code st'
      end
  end.

(** The process: [init] runs before [main]. *)
Definition process (w0 : Env) (ts : list Turn) : Outcome :=
  match init w0 initial with
  | Running st => main_loop ts st
  | Exited code st => Exited code st
  end.

(** ** Signs of float64 values *)

(** A value with sign bit [s] that is a number. *)
Definition has_sign (s : bool) (x : float64) : Prop :=
  match x with
  | S754_zero s' | S754_infinity s' | S754_finite s' _ _ => s' = s
  | S754_nan => False
  end.

(** Zero of either sign, or a negative number or infinity. *)
Definition nonpos (x : float64) : Prop :=
  match x with
  | S754_zero _ | S754_infinity true | S754_finite true _ _ => True
  | _ => False
  end.

(** A positive finite number. *)
Definition pos_finite (x : float64) : Prop :=
  match x with S754_finite false _ _ => True | _ => False end.

(** ** The failures of one fetch *)

(** The request is not answered. *)
Definition transport_failure (w : Env) (u : URLConfig) : Prop :=
  http_Do w (URL u) = None.

(** The body does not decode as an [APIResponse]. *)
Definition malformed_body (w : Env) (u : URLConfig) : Prop :=
  ∃ body, http_Do w (URL u) = Some body ∧ json_Decode w body = None.

(** The response has no [DateLimit]. *)
Definition empty_DateLimit (w : Env) (u : URLConfig) : Prop :=
  ∃ body r, http_Do w (URL u) = Some body ∧ json_Decode w body = Some r
            ∧ DateLimit (Data r) = "".

(** The [DateLimit] does not parse against the layout. *)
Definition unparseable_DateLimit (w : Env) (u : URLConfig) : Prop :=
  ∃ body r, http_Do w (URL u) = Some body ∧ json_Decode w body = Some r
            ∧ time.Parse (DateLimit (Data r)) = None.

(** ** Sample surroundings

    Concrete configurations, responses and environments on which the
    definitions above are run. *)

Fixpoint assoc {A : Type} (k : string) (l : list (string * A)) : option A :=
  match l with
  | [] => None
  | (k', a) :: l' => if String.eqb k k' then Some a else assoc k l'
  end.

Definition sample_response (dateLimit : string) : APIResponse :=
  {| Status := 200; Message := JNull;
     Data := {| AuthorizerDate := "2024-01-01 00:00:00"; DateLimit := dateLimit |};
     Error := JNull |}.

Definition endpoint_a : URLConfig :=
  {| URL := "http://a.example/cert"; Label := "a"; OriginPrometheus := "prom-1" |}.
Definition endpoint_b : URLConfig :=
  {| URL := "http://b.example/cert"; Label := "b"; OriginPrometheus := "prom-1" |}.
Definition endpoint_c : URLConfig :=
  {| URL := "http://c.example/cert"; Label := "c"; OriginPrometheus := "prom-2" |}.

(** An environment from tables: the files, the configurations their
    contents decode to, the URLs no request can be built for, the
    bodies served and the responses they decode to. *)
Definition mk_env (flag : option string) (files : list (string * string))
    (configs : list (string * Config)) (bad_urls : list string)
    (bodies : list (string * string)) (responses : list (string * APIResponse))
    (now : time.Time) (local : time.Location) : Env :=
  {| flag_config := flag;
     ioutil_ReadFile := fun path => assoc path files;
     json_Unmarshal := fun data => assoc data configs;
     http_NewRequest := fun url => negb (existsb (String.eqb url) bad_urls);
     http_Do := fun url => assoc url bodies;
     json_Decode := fun body => assoc body responses;
     time_Now := now;
     time_Local := local |}.

(** 2024-01-01 00:00:00 UTC. *)
Definition new_year_2024 : time.Time := 1704067200 * time.Second.

(** [a] answers with a date in 2099, [b] does not answer, [c] answers
    with text that is not JSON. *)
Definition sample_env : Env :=
  mk_env None
    [("config.json", "{urls: a, b, c}")]
    [("{urls: a, b, c}", {| URLs := [endpoint_a; endpoint_b; endpoint_c] |})]
    []
    [("http://a.example/cert", "{DateLimit: 2099}"); ("http://c.example/cert", "<html>")]
    [("{DateLimit: 2099}", sample_response "2099-01-01 00:00:00")]
    new_year_2024 time.UTC.

(** Endpoint [a] answering with a given response at a given time. *)
Definition env_serving (r : APIResponse) (now : time.Time) (local : time.Location) : Env :=
  mk_env None [] [] [] [("http://a.example/cert", "body")] [("body", r)] now local.

Definition env_with (dateLimit : string) (now : time.Time) (local : time.Location) : Env :=
  env_serving (sample_response dateLimit) now local.

(** A response with the same [DateLimit] as [sample_response] and
    every other field different. *)
Definition other_response (dateLimit : string) : APIResponse :=
  {| Status := 500; Message := JString "internal error";
     Data := {| AuthorizerDate := ""; DateLimit := dateLimit |};
     Error := JArray [JBool true; JNumber (of_Z 7)] |}.

(** Started with [-config prod.json]: that file lists [a], while
    ["config.json"] lists [b]. *)
Definition flag_env : Env :=
  mk_env (Some "prod.json")
    [("prod.json", "{urls: a}"); ("config.json", "{urls: b}")]
    [("{urls: a}", {| URLs := [endpoint_a] |}); ("{urls: b}", {| URLs := [endpoint_b] |})]
    [] [] [] new_year_2024 time.UTC.

(** A turn during which nothing changes: the configuration is read and
    every fetch is made in the surroundings [w]. *)
Definition steady (w : Env) : Turn := {| at_load := w; at_call := fun _ => w |}.

(** A turn that reads its configuration in [w] and whose [i]-th fetch
    sees the [i]-th of [calls] ([w] again once they run out). *)
Definition varying (w : Env) (calls : list Env) : Turn :=
  {| at_load := w; at_call := fun i => nth i calls w |}.

(** The configuration file loads in the turn [t]. *)
Definition config_loads (t : Turn) : Prop :=
  is_Some (readConfig (at_load t) "config.json").

(** ** Notions for the properties of the whole program *)

(** Zero of either sign, or a positive number or infinity. *)
Definition nonneg (x : float64) : Prop :=
  match x with
  | S754_zero _ | S754_infinity false | S754_finite false _ _ => True
  | _ => False
  end.

(** [-x]. *)
Definition neg (x : float64) : float64 := SFopp x.

(** The fetch goes through every stage of [fetchData] and reads the
    DateLimit as the instant [t]. *)
Definition fetch_succeeds (w : Env) (u : URLConfig) (t : time.Time) : Prop :=
  http_NewRequest w (URL u) = true
  ∧ ∃ body r, http_Do w (URL u) = Some body ∧ json_Decode w body = Some r
              ∧ DateLimit (Data r) ≠ "" ∧ time.Parse (DateLimit (Data r)) = Some t.

(** Every value of the gauge vector is a number. *)
Definition numbers (st : State) : Prop :=
  ∀ k v, metric st !! k = Some v → math.IsNaN v = false.

(** The state an outcome carries. *)
Definition outcome_state (o : Outcome) : State :=
  match o with Running st | Exited _ st => st end.

(** The descriptors the turn [t] of the polling loop reads (none when
    the configuration does not load). *)
Definition turn_config (t : Turn) : list URLConfig :=
  from_option URLs [] (readConfig (at_load t) "config.json").

(** The [Set]s the turn [t] makes for the descriptors [urls]: one per
    descriptor, in order, each with the value of its own call. *)
Definition turn_sets (t : Turn) (urls : list URLConfig) : list (string * string * float64) :=
  imap (fun i u => (URL u, OriginPrometheus u, published (at_call t i) u)) urls.

(** The sleeps of a trace, in order. *)
Definition sleeps (tr : list Event) : list time.Duration :=
  omap (fun e => match e with Sleep d => Some d | _ => None end) tr.

(** A descriptor with another display label. *)
Definition relabel (g : URLConfig -> string) (u : URLConfig) : URLConfig :=
  {| URL := URL u; Label := g u; OriginPrometheus := OriginPrometheus u |}.

(** The same surroundings with every display label of every
    configuration replaced. *)
Definition relabel_env (g : URLConfig -> string) (w : Env) : Env :=
  {| flag_config := flag_config w;
     ioutil_ReadFile := ioutil_ReadFile w;
     json_Unmarshal := fun data =>
       (fun c => {| URLs := relabel g <$> URLs c |}) <$> json_Unmarshal w data;
     http_NewRequest := http_NewRequest w;
     http_Do := http_Do w;
     json_Decode := json_Decode w;
     time_Now := time_Now w;
     time_Local := time_Local w |}.

(** A turn with every display label of every configuration replaced,
    in what it sees at every moment. *)
Definition relabel_turn (g : URLConfig -> string) (t : Turn) : Turn :=
  {| at_load := relabel_env g (at_load t);
     at_call := fun i => relabel_env g (at_call t i) |}.


(** One day, in nanoseconds. *)
Definition day : Z := 24 * time.Hour.

(** Rounding to two decimals as the specification words it, on the
    exact number of days [d / day]: the hundredths of a day nearest to
    it, as an integer, under each policy for a number exactly halfway
    between two hundredths. *)
Definition hundredths (tie : Z -> bool) (d : time.Duration) : Z :=
  let n := 100 * Z.abs d in
  let q := n / day in
  let r := n mod day in
  let h := if (day <? 2 * r)%Z || ((2 * r =? day)%Z && tie q) then q + 1 else q in
  Z.sgn d * h.

(** Halfway goes away from zero. *)
Definition hundredths_half_away : time.Duration -> Z := hundredths (fun _ => true).
(** Halfway goes to the even hundredth. *)
Definition hundredths_half_even : time.Duration -> Z := hundredths Z.odd.
(** Halfway goes toward zero. *)
Definition hundredths_half_down : time.Duration -> Z := hundredths (fun _ => false).


(** A run of [n] spaces before [rest]. *)
Definition spaces (n : nat) (rest : string) : string :=
  Nat.iter n (String " ") rest.

(** The digits [ds] written out. *)
Definition digitString (ds : list Z) : string :=
  foldr (fun d s => String (time.digitChar d) s) EmptyString ds.

(** The fields written more loosely than [time.formatFields] writes
    them: [n] spaces between date and time, the hour in one digit when
    [short_hour], and, when [frac] is [Some (c, ds)], the separator [c]
    and the digits [ds] of a fraction after the seconds. *)
Definition formatLoosely (f : time.Fields) (n : nat) (short_hour : bool)
    (frac : option (ascii * list Z)) : string :=
  time.pad4 (time.year f) (String "-" (time.pad2 (time.month f) (String "-"
    (time.pad2 (time.day f) (spaces n
      ((if short_hour then String (time.digitChar (time.hour f))
        else time.pad2 (time.hour f))
         (String ":" (time.pad2 (time.min f) (String ":" (time.pad2 (time.sec f)
           match frac with
           | Some (c, ds) => String c (digitString ds)
           | None => EmptyString
           end)))))))))).

(** A second descriptor for the endpoint [a], under another label. *)
Definition endpoint_a_bis : URLConfig :=
  {| URL := "http://a.example/cert"; Label := "a (again)"; OriginPrometheus := "prom-1" |}.

(** ["config.json"] lists [a] twice and [b] once; [a] answers with a
    date in 2099, [b] does not answer. *)
Definition dup_env : Env :=
  mk_env None
    [("config.json", "{urls: a, a, b}")]
    [("{urls: a, a, b}", {| URLs := [endpoint_a; endpoint_a_bis; endpoint_b] |})]
    []
    [("http://a.example/cert", "{DateLimit: 2099}")]
    [("{DateLimit: 2099}", sample_response "2099-01-01 00:00:00")]
    new_year_2024 time.UTC.

(** No request can be built for the URL of [a]. *)
Definition bad_url_env : Env :=
  mk_env None [] [] ["http://a.example/cert"]
    [("http://a.example/cert", "{DateLimit: 2099}")]
    [("{DateLimit: 2099}", sample_response "2099-01-01 00:00:00")]
    new_year_2024 time.UTC.

(** ** The gauge vector *)

Section Store.

Implicit Types (st : State) (u : URLConfig) (w : Env) (v : float64).

Lemma sets_app tr1 tr2 : sets (tr1 ++ tr2) = sets tr1 ++ sets tr2.
Proof. unfold sets. apply omap_app. Qed.

Lemma metric_Set url origin v st :
  metric (WithLabelValues_Set url origin v st) = <[(url, origin) := v]> (metric st).
Proof. reflexivity. Qed.

Lemma sets_Set url origin v st :
  sets (trace (WithLabelValues_Set url origin v st)) = sets (trace st) ++ [(url, origin, v)].
Proof. simpl. by rewrite sets_app. Qed.

Lemma sets_emit_log f a st : sets (trace (emit (LogPrintf f a) st)) = sets (trace st).
Proof. simpl. rewrite sets_app. simpl. by rewrite app_nil_r. Qed.

(** Every path of [fetchData] ends in one [Set] on the endpoint's own
    child of [metric], after at most one log line. *)
Lemma fetchData_shape w u st :
  ∃ v st', fetchData w u st = WithLabelValues_Set (URL u) (OriginPrometheus u) v st'
           ∧ metric st' = metric st
           ∧ sets (trace st') = sets (trace st)
           ∧ v = published w u.
Proof.
  unfold published, fetchData.
  destruct (http_NewRequest w (URL u)); simpl;
    [destruct (http_Do w (URL u)) as [body|]; simpl;
      [destruct (json_Decode w body) as [r|]; simpl;
        [destruct (decide (DateLimit (Data r) = "")); simpl;
          [|destruct (time.Parse (DateLimit (Data r))) as [t|]; simpl]|]|]|];
    eexists _, _; (split; [reflexivity|]);
    unfold key; rewrite lookup_insert_eq; simpl;
    (split; [reflexivity|]); (split; [|reflexivity]);
    rewrite ?sets_app; simpl; by rewrite ?app_nil_r.
Qed.

Lemma fetchData_metric w u st :
  metric (fetchData w u st) = <[key u := published w u]> (metric st).
Proof.
  destruct (fetchData_shape w u st) as (v & st' & -> & Hm & _ & ->).
  by rewrite metric_Set, Hm.
Qed.

Lemma fetchData_sets w u st :
  sets (trace (fetchData w u st)) = sets (trace st) ++ [(URL u, OriginPrometheus u, published w u)].
Proof.
  destruct (fetchData_shape w u st) as (v & st' & -> & _ & Ht & ->).
  by rewrite sets_Set, Ht.
Qed.

Lemma fetchAll_snoc jobs job st :
  fetchAll (jobs ++ [job]) st = fetchData (fst job) (snd job) (fetchAll jobs st).
Proof. unfold fetchAll. by rewrite foldl_app. Qed.

Lemma fetchAll_other jobs st k :
  k ∉ (key ∘ snd) <$> jobs → metric (fetchAll jobs st) !! k = metric st !! k.
Proof.
  induction jobs as [|job jobs IH] using rev_ind; [done|].
  rewrite fmap_app, fetchAll_snoc, fetchData_metric. simpl.
  intros Hk. apply not_elem_of_app in Hk as [Hk1 Hk2].
  rewrite lookup_insert_ne; [by apply IH|].
  intros Heq. apply Hk2. rewrite Heq. apply list_elem_of_here.
Qed.

Lemma fetchAll_own jobs st w u :
  NoDup ((key ∘ snd) <$> jobs) → (w, u) ∈ jobs →
  metric (fetchAll jobs st) !! key u = Some (published w u).
Proof.
  induction jobs as [|job jobs IH] using rev_ind; [by intros _ ?%elem_of_nil|].
  rewrite fmap_app. simpl. intros Hnd Hin.
  apply NoDup_app in Hnd as (Hnd & Hdisj & _).
  rewrite fetchAll_snoc, fetchData_metric.
  apply elem_of_app in Hin as [Hin|Hin].
  - rewrite lookup_insert_ne; [by apply IH|].
    intros Heq. apply (Hdisj (key u)); [|rewrite <- Heq; apply list_elem_of_here].
    apply list_elem_of_fmap. by exists (w, u).
  - apply list_elem_of_singleton in Hin as <-. simpl. by rewrite lookup_insert_eq.
Qed.

Lemma fetchAll_dom jobs st :
  dom (metric (fetchAll jobs st)) = list_to_set ((key ∘ snd) <$> jobs) ∪ dom (metric st).
Proof.
  induction jobs as [|job jobs IH] using rev_ind; [set_solver|].
  rewrite fetchAll_snoc, fetchData_metric, dom_insert_L, IH, fmap_app, list_to_set_app_L.
  simpl. set_solver.
Qed.

Lemma fetchAll_app jobs1 jobs2 st :
  fetchAll (jobs1 ++ jobs2) st = fetchAll jobs2 (fetchAll jobs1 st).
Proof. unfold fetchAll. by rewrite foldl_app. Qed.

Lemma fetchAll_sets jobs st :
  sets (trace (fetchAll jobs st))
  = sets (trace st)
    ++ ((fun job => (URL (snd job), OriginPrometheus (snd job),
                     published (fst job) (snd job))) <$> jobs).
Proof.
  induction jobs as [|job jobs IH] using rev_ind; [by rewrite app_nil_r|].
  by rewrite fetchAll_snoc, fetchData_sets, IH, fmap_app, app_assoc.
Qed.

(** The last call for a key decides the value under it. *)
Lemma fetchAll_last jobs1 w u jobs2 st :
  key u ∉ (key ∘ snd) <$> jobs2 →
  metric (fetchAll (jobs1 ++ (w, u) :: jobs2) st) !! key u = Some (published w u).
Proof.
  intros Hk. rewrite fetchAll_app. change ((w, u) :: jobs2) with ([(w, u)] ++ jobs2).
  rewrite fetchAll_app, fetchAll_other by done.
  change (fetchAll [(w, u)] (fetchAll jobs1 st)) with (fetchData w u (fetchAll jobs1 st)).
  by rewrite fetchData_metric, lookup_insert_eq.
Qed.

(** The calls of a turn: their keys, their [Set]s, and the call made
    for the descriptor at a given place. *)
Lemma imap_jobs_keys (c : nat → Env) (us : list URLConfig) :
  (key ∘ snd) <$> imap (fun i u => (c i, u)) us = key <$> us.
Proof.
  revert c. induction us as [|u us IH]; intros c; [done|].
  rewrite imap_cons, !fmap_cons. f_equal. apply (IH (c ∘ S)).
Qed.

Lemma turn_jobs_keys t (us : list URLConfig) :
  (key ∘ snd) <$> turn_jobs t us = key <$> us.
Proof. apply imap_jobs_keys. Qed.

Lemma turn_jobs_sets t (us : list URLConfig) :
  (fun job => (URL (snd job), OriginPrometheus (snd job), published (fst job) (snd job)))
    <$> turn_jobs t us
  = turn_sets t us.
Proof. unfold turn_jobs, turn_sets. by rewrite fmap_imap. Qed.

Lemma turn_jobs_middle t (us1 : list URLConfig) u (us2 : list URLConfig) :
  ∃ jobs2,
    turn_jobs t (us1 ++ u :: us2) = turn_jobs t us1 ++ (at_call t (length us1), u) :: jobs2
    ∧ (key ∘ snd) <$> jobs2 = key <$> us2.
Proof.
  unfold turn_jobs. rewrite imap_app, imap_cons. eexists. split.
  - f_equal. f_equal. by rewrite Nat.add_0_r.
  - apply (imap_jobs_keys (fun i => at_call t (length us1 + S i))).
Qed.

(** After the calls of a turn, the descriptor at place [i] has the
    value of its own call unless a later descriptor of the turn has
    the same key. *)
Lemma turn_jobs_own t (us : list URLConfig) i u st :
  us !! i = Some u → key u ∉ key <$> drop (S i) us →
  metric (fetchAll (turn_jobs t us) st) !! key u = Some (published (at_call t i) u).
Proof.
  intros Hi Hk. pose proof (lookup_lt_Some _ _ _ Hi) as Hlt.
  rewrite <- (take_drop_middle us i u Hi).
  destruct (turn_jobs_middle t (take i us) u (drop (S i) us)) as (jobs2 & -> & Hkeys).
  rewrite length_take_le by lia. apply fetchAll_last. by rewrite Hkeys.
Qed.

End Store.

(** ** Rounding *)

Section Rounding.

(** [math.Pow(10, 2)] is exactly 100. *)
Lemma Pow_10_2 : math.Pow (of_Z 10) 2 = of_Z 100.
Proof. vm_compute. reflexivity. Qed.

Lemma round_2 (x : float64) :
  round x 2 = div (math.Round (mul x (of_Z 100))) (of_Z 100).
Proof. unfold round. by rewrite Pow_10_2. Qed.

(** [math.Round] of a float with a fraction part is the nearest
    integer [n], and the farther from zero of the two at a tie. *)
Lemma Round_nearest_away (s : bool) (m : positive) (e : Z) :
  e < 0 →
  ∃ n : Z,
    math.Round (S754_finite s m e) = binary_normalize prec emax (cond_Zopp s n) 0 s
    ∧ 0 <= n
    ∧ 2 * Z.abs (n * 2 ^ (- e) - Z.pos m) <= 2 ^ (- e)
    ∧ (2 * Z.abs (n * 2 ^ (- e) - Z.pos m) = 2 ^ (- e) → Z.pos m < n * 2 ^ (- e)).
Proof.
  intros He. unfold math.Round.
  destruct (Z.leb_spec 0 e) as [?|_]; [lia|].
  set (d := 2 ^ (- e)).
  assert (Hd : 0 < d) by (apply Z.pow_pos_nonneg; lia).
  pose proof (Z.div_mod (Z.pos m) d ltac:(lia)) as Hdm.
  pose proof (Z.mod_pos_bound (Z.pos m) d Hd) as Hr.
  assert (Hq : 0 <= Z.pos m / d) by (apply Z.div_pos; lia).
  destruct (Z.leb_spec d (2 * (Z.pos m mod d))) as [Hhalf|Hhalf].
  - exists (Z.pos m / d + 1). split; [reflexivity|]. nia.
  - exists (Z.pos m / d). split; [reflexivity|]. nia.
Qed.

End Rounding.

(** ** Startup *)

Section Startup.

Implicit Types (st : State) (u : URLConfig) (us : list URLConfig).

Lemma init_pass_snoc us u st :
  foldl (fun st urlConfig => init_metric urlConfig st) st (us ++ [u])
  = init_metric u (foldl (fun st urlConfig => init_metric urlConfig st) st us).
Proof. by rewrite foldl_app. Qed.

Lemma init_pass_dom us st :
  dom (metric (foldl (fun st urlConfig => init_metric urlConfig st) st us))
  = list_to_set (key <$> us) ∪ dom (metric st).
Proof.
  induction us as [|u us IH] using rev_ind; [set_solver|].
  rewrite init_pass_snoc. unfold init_metric at 1. rewrite metric_Set, dom_insert_L, IH.
  rewrite fmap_app, list_to_set_app_L. simpl. unfold key at 3. set_solver.
Qed.

Lemma init_pass_values us st k v :
  metric (foldl (fun st urlConfig => init_metric urlConfig st) st us) !! k = Some v →
  v = minus_one ∨ metric st !! k = Some v.
Proof.
  induction us as [|u us IH] using rev_ind; [by right|].
  rewrite init_pass_snoc. unfold init_metric at 1. rewrite metric_Set.
  destruct (decide ((URL u, OriginPrometheus u) = k)) as [->|Hne].
  - rewrite lookup_insert_eq. intros [= <-]. by left.
  - rewrite lookup_insert_ne by done. apply IH.
Qed.

Lemma init_pass_own us st u :
  u ∈ us →
  metric (foldl (fun st urlConfig => init_metric urlConfig st) st us) !! key u
  = Some minus_one.
Proof.
  induction us as [|u0 us IH] using rev_ind; [by intros ?%elem_of_nil|].
  intros Hin. rewrite init_pass_snoc. unfold init_metric at 1. rewrite metric_Set.
  fold (key u0). destruct (decide (key u0 = key u)) as [->|Hne].
  - by rewrite lookup_insert_eq.
  - rewrite lookup_insert_ne by done. apply IH.
    apply elem_of_app in Hin as [Hin|Hin]; [done|].
    apply list_elem_of_singleton in Hin. by subst.
Qed.

Lemma init_pass_sets us st :
  sets (trace (foldl (fun st urlConfig => init_metric urlConfig st) st us))
  = sets (trace st) ++ ((fun u => (URL u, OriginPrometheus u, minus_one)) <$> us).
Proof.
  induction us as [|u us IH] using rev_ind; [by rewrite app_nil_r|].
  rewrite init_pass_snoc. unfold init_metric at 1.
  by rewrite sets_Set, IH, fmap_app, app_assoc.
Qed.

Lemma init_running w st config :
  readConfig w (default "config.json" (flag_config w)) = Some config →
  init w st = Running (foldl (fun st urlConfig => init_metric urlConfig st) st (URLs config)).
Proof. intros H. unfold init. by rewrite H. Qed.

Lemma main_loop_app (ts1 ts2 : list Turn) st st1 :
  main_loop ts1 st = Running st1 → main_loop (ts1 ++ ts2) st = main_loop ts2 st1.
Proof.
  revert st. induction ts1 as [|t ts1 IH]; simpl; intros st H; [by injection H as ->|].
  destruct (cycle t st) as [st'|c st']; [by apply IH|done].
Qed.

Lemma cycle_loads (t : Turn) st : config_loads t → ∃ st', cycle t st = Running st'.
Proof. intros [config H]. unfold cycle. rewrite H. by eexists. Qed.

Lemma main_loop_running (ts : list Turn) st :
  Forall config_loads ts → ∃ st', main_loop ts st = Running st'.
Proof.
  intros Hall. revert st. induction Hall as [|t ts Ht _ IH]; intros st; simpl; [by eexists|].
  destruct (cycle_loads t st Ht) as [st' ->]. apply IH.
Qed.

End Startup.

(** ** The collector *)

Section Collector.

Implicit Types (st : State) (u : URLConfig) (w : Env).

Lemma published_failure w u :
  transport_failure w u ∨ malformed_body w u ∨ empty_DateLimit w u
  ∨ unparseable_DateLimit w u →
  published w u = minus_one.
Proof.
  unfold published, fetchData, key.
  intros [H|[(body & H & Hd)|[(body & r & H & Hd & He)|(body & r & H & Hd & Hp)]]];
    (destruct (http_NewRequest w (URL u)); simpl; [|by rewrite lookup_insert_eq]);
    rewrite H; simpl; rewrite ?Hd; simpl; rewrite ?lookup_insert_eq; try done.
  - destruct (decide (DateLimit (Data r) = "")); [|done]; simpl.
    by rewrite lookup_insert_eq.
  - destruct (decide (DateLimit (Data r) = "")); simpl; [by rewrite lookup_insert_eq|].
    rewrite Hp. simpl. by rewrite lookup_insert_eq.
Qed.

Lemma published_success w u body r t :
  http_NewRequest w (URL u) = true →
  http_Do w (URL u) = Some body →
  json_Decode w body = Some r →
  DateLimit (Data r) ≠ "" →
  time.Parse (DateLimit (Data r)) = Some t →
  published w u = round (div (time.Hours (time.Sub t (time_Now w))) (of_Z 24)) 2.
Proof.
  intros Hn Hdo Hdec Hne Hp. unfold published, fetchData, key.
  rewrite Hn, Hdo, Hdec. simpl.
  destruct (decide (DateLimit (Data r) = "")); [done|].
  rewrite Hp. simpl. by rewrite lookup_insert_eq.
Qed.

Lemma cycle_running (t : Turn) st config :
  readConfig (at_load t) "config.json" = Some config →
  cycle t st
  = Running (emit (Sleep (10 * time.Hour)) (fetchAll (turn_jobs t (URLs config)) st)).
Proof. intros H. unfold cycle. by rewrite H. Qed.

Lemma cycle_sets (t : Turn) st config :
  sets (trace (emit (Sleep (10 * time.Hour)) (fetchAll (turn_jobs t (URLs config)) st)))
  = sets (trace st) ++ turn_sets t (URLs config).
Proof.
  simpl. rewrite sets_app. simpl. by rewrite app_nil_r, fetchAll_sets, turn_jobs_sets.
Qed.

Lemma turn_sets_keys (t : Turn) (us : list URLConfig) : (turn_sets t us).*1 = key <$> us.
Proof.
  unfold turn_sets. rewrite fmap_imap.
  apply (imap_const key us).
Qed.

End Collector.

(** ** Parsing what was formatted *)

Section Parsing.

Import time.

Lemma digitChar_spec (d : Z) :
  0 <= d <= 9 →
  isDigitChar (digitChar d) = true ∧ digitVal (digitChar d) = d
  ∧ Ascii.eqb (digitChar d) " " = false.
Proof.
  intros Hd.
  assert (H : d = 0 ∨ d = 1 ∨ d = 2 ∨ d = 3 ∨ d = 4 ∨ d = 5 ∨ d = 6 ∨ d = 7
              ∨ d = 8 ∨ d = 9) by lia.
  repeat (destruct H as [->|H]; [by vm_compute|]). subst. by vm_compute.
Qed.

Lemma div_range (n b q : Z) : 0 < b → 0 <= n < b * (q + 1) → 0 <= n / b <= q.
Proof.
  intros Hb Hn. split; [apply Z.div_pos; lia|].
  apply Z.lt_succ_r, Z.div_lt_upper_bound; lia.
Qed.

Lemma getnum_pad2 (n : Z) (rest : string) (fixed : bool) :
  0 <= n <= 99 → getnum (pad2 n rest) fixed = Some (n, rest).
Proof.
  intros Hn. unfold pad2, getnum.
  destruct (digitChar_spec (n / 10)) as (-> & -> & _);
    [apply div_range; lia|].
  destruct (digitChar_spec (n mod 10)) as (-> & -> & _);
    [pose proof (Z.mod_pos_bound n 10); lia|].
  do 2 f_equal. pose proof (Z.div_mod n 10). lia.
Qed.

Lemma getyear_pad4 (n : Z) (rest : string) :
  0 <= n <= 9999 → getyear (pad4 n rest) = Some (n, rest).
Proof.
  intros Hn. unfold pad4, pad2, getyear.
  assert (Hh : 0 <= n / 100 <= 99) by (apply div_range; lia).
  assert (Hl : 0 <= n mod 100 <= 99) by (pose proof (Z.mod_pos_bound n 100); lia).
  destruct (digitChar_spec (n / 100 / 10)) as (-> & -> & _);
    [apply div_range; lia|].
  destruct (digitChar_spec ((n / 100) mod 10)) as (-> & -> & _);
    [pose proof (Z.mod_pos_bound (n / 100) 10); lia|].
  destruct (digitChar_spec (n mod 100 / 10)) as (-> & -> & _);
    [apply div_range; lia|].
  destruct (digitChar_spec ((n mod 100) mod 10)) as (-> & -> & _);
    [pose proof (Z.mod_pos_bound (n mod 100) 10); lia|].
  simpl. do 2 f_equal.
  pose proof (Z.div_mod n 100). pose proof (Z.div_mod (n / 100) 10).
  pose proof (Z.div_mod (n mod 100) 10). lia.
Qed.

Lemma cutspace_pad2 (n : Z) (rest : string) :
  0 <= n <= 99 → cutspace (pad2 n rest) = pad2 n rest.
Proof.
  intros Hn. unfold pad2. simpl.
  destruct (digitChar_spec (n / 10)) as (_ & _ & ->);
    [apply div_range; lia|].
  reflexivity.
Qed.

Lemma daysIn_le_31 (m y : Z) : daysIn m y <= 31.
Proof.
  unfold daysIn.
  repeat match goal with
         | |- context [match ?x with _ => _ end] => destruct x
         end; lia.
Qed.

(** A valid date and time written in the layout parses back to its
    fields. *)
Lemma parseFields_formatFields (f : Fields) :
  validFields f → parseFields (formatFields f) = Some f.
Proof.
  destruct f as [y mo d h mi s ns].
  intros (Hy & Hmo & Hd & Hh & Hmi & Hs & Hns). simpl in *. subst ns.
  pose proof (daysIn_le_31 mo y) as H31.
  unfold parseFields, formatFields. cbn [year month day hour min sec nsec].
  rewrite getyear_pad4 by lia. cbn [mbind option_bind skipByte].
  rewrite Ascii.eqb_refl. cbn [mbind option_bind].
  rewrite getnum_pad2 by lia. cbn [mbind option_bind].
  rewrite option_guard_True by lia. cbn [mbind option_bind skipByte].
  rewrite Ascii.eqb_refl. cbn [mbind option_bind].
  rewrite getnum_pad2 by lia. cbn [mbind option_bind skipSpace].
  rewrite Ascii.eqb_refl. cbn [mbind option_bind cutspace].
  rewrite Ascii.eqb_refl. rewrite cutspace_pad2 by lia.
  rewrite getnum_pad2 by lia. cbn [mbind option_bind].
  rewrite option_guard_True by lia. cbn [mbind option_bind skipByte].
  rewrite Ascii.eqb_refl. cbn [mbind option_bind].
  rewrite getnum_pad2 by lia. cbn [mbind option_bind].
  rewrite option_guard_True by lia. cbn [mbind option_bind skipByte].
  rewrite Ascii.eqb_refl. cbn [mbind option_bind].
  rewrite getnum_pad2 by lia. cbn [mbind option_bind].
  rewrite option_guard_True by lia. cbn [mbind option_bind getfrac].
  rewrite option_guard_True by done. cbn [mbind option_bind].
  rewrite option_guard_True by lia. reflexivity.
Qed.

(** Reading the fields in a location shifts the UTC reading by the
    offset of the location. *)
Lemma ParseInLocation_Parse (value : string) (loc : Location) :
  ParseInLocation value loc = (fun t => t - zoneOffset loc * Second) <$> Parse value.
Proof.
  unfold ParseInLocation, Parse, parse.
  destruct (parseFields value) as [f|]; [|done]. simpl.
  f_equal. unfold Date. simpl. lia.
Qed.

End Parsing.

(** ** Signs of float64 results *)

Section Signs.

Lemma has_sign_nonpos x : has_sign true x → nonpos x.
Proof. destruct x as [s|s| |s m e]; simpl; try done; by intros ->. Qed.

Lemma shr_1_nonneg mrs : 0 <= shr_m mrs → 0 <= shr_m (shr_1 mrs).
Proof. destruct mrs as [[|[p|p|]|[p|p|]] r s]; simpl; lia. Qed.

Lemma iter_shr_1_nonneg p mrs : 0 <= shr_m mrs → 0 <= shr_m (SpecFloat.iter_pos shr_1 p mrs).
Proof.
  revert mrs. induction p as [p IH|p IH|]; intros mrs H; simpl.
  - by apply IH, IH, shr_1_nonneg.
  - by apply IH, IH.
  - by apply shr_1_nonneg.
Qed.

Lemma shr_fexp_nonneg m e l :
  0 <= m → 0 <= shr_m (fst (shr_fexp prec emax m e l)).
Proof.
  intros Hm. unfold shr_fexp, shr.
  assert (H0 : 0 <= shr_m (shr_record_of_loc m l)) by (by destruct l as [|[]]).
  destruct (fexp prec emax (Zdigits2 m + e) - e) as [|p|p]; simpl; try done.
  by apply iter_shr_1_nonneg.
Qed.

Lemma round_nearest_even_nonneg m l : 0 <= m → 0 <= round_nearest_even m l.
Proof.
  intros Hm. destruct l as [|[]]; simpl; try lia. destruct (Z.even m); lia.
Qed.

Lemma binary_round_aux_sign s m e l :
  0 <= m → has_sign s (binary_round_aux prec emax s m e l).
Proof.
  intros Hm. unfold binary_round_aux.
  pose proof (shr_fexp_nonneg m e l Hm) as H1.
  destruct (shr_fexp prec emax m e l) as [mrs' e']. simpl in H1.
  pose proof (shr_fexp_nonneg _ e' loc_Exact
                (round_nearest_even_nonneg _ (loc_of_shr_record mrs') H1)) as H2.
  destruct (shr_fexp prec emax _ e' loc_Exact) as [mrs'' e'']. simpl in H2.
  destruct (shr_m mrs'') as [|p|p]; simpl; [done | | lia].
  by destruct (e'' <=? emax - prec)%Z.
Qed.

Lemma binary_round_sign s m e : has_sign s (binary_round prec emax s m e).
Proof.
  unfold binary_round.
  destruct (shl_align m e _) as [mz ez]. by apply binary_round_aux_sign.
Qed.

Lemma of_Z_nonpos n : n <= 0 → nonpos (of_Z n).
Proof.
  intros Hn. unfold of_Z, binary_normalize. destruct n as [|p|p]; [done|lia|].
  apply has_sign_nonpos, binary_round_sign.
Qed.

Lemma div_nonpos x c : nonpos x → pos_finite c → nonpos (div x c).
Proof.
  destruct c as [| | |[] mc ec]; try done.
  destruct x as [s|[]| |[] m e]; try done; intros _ _; simpl.
  unfold div, SFdiv.
  unfold SFdiv_core_binary.
  match goal with
  | |- context [Z.div_eucl ?a ?b] =>
      assert (Ha : 0 <= a);
      [| pose proof (Z_div_mod a b ltac:(lia)) as Hdm;
         destruct (Z.div_eucl a b) as [q r] ]
  end.
  - destruct (e - ec - _) as [|p|p]; try lia. apply Z.shiftl_nonneg. lia.
  - apply has_sign_nonpos, binary_round_aux_sign. nia.
Qed.

Lemma mul_nonpos x c : nonpos x → pos_finite c → nonpos (mul x c).
Proof.
  destruct c as [| | |[] mc ec]; try done.
  destruct x as [s|[]| |[] m e]; try done; intros _ _; simpl.
  apply has_sign_nonpos, binary_round_aux_sign. lia.
Qed.

Lemma add_nonpos x y : nonpos x → nonpos y → nonpos (add x y).
Proof.
  destruct x as [[]|[]| |[] mx ex], y as [[]|[]| |[] my ey]; try done; intros _ _.
  unfold add, SFadd.
  destruct (shl_align mx ex _) as [ax ?], (shl_align my ey _) as [ay ?]. simpl.
  apply has_sign_nonpos, binary_round_sign.
Qed.

Lemma Round_nonpos x : nonpos x → nonpos (math.Round x).
Proof.
  destruct x as [s|[]| |[] m e]; try done; intros _. unfold math.Round.
  destruct (Z.leb_spec 0 e) as [|He]; [done|].
  assert (Hd : 0 < 2 ^ (- e)) by (apply Z.pow_pos_nonneg; lia).
  assert (Hq : 0 <= Z.pos m / 2 ^ (- e)) by (apply Z.div_pos; lia).
  set (n := if (2 ^ (- e) <=? 2 * (Z.pos m mod 2 ^ (- e)))%Z
            then Z.pos m / 2 ^ (- e) + 1 else Z.pos m / 2 ^ (- e)).
  assert (Hn : 0 <= n) by (unfold n; destruct (_ <=? _)%Z; lia).
  destruct n as [|p|p]; simpl; [done | | lia].
  apply has_sign_nonpos, binary_round_sign.
Qed.

Lemma nonpos_leb x : nonpos x → leb x (of_Z 0) = true ∧ math.IsNaN x = false.
Proof. by destruct x as [[]|[]| |[] m e]. Qed.

Lemma Sub_neg (t u : time.Time) : t < u → time.Sub t u < 0.
Proof.
  intros H. unfold time.Sub, time.minDuration, time.maxDuration.
  destruct (Z.ltb_spec (t - u) (- 2 ^ 63)); [lia|].
  destruct (Z.ltb_spec (2 ^ 63 - 1) (t - u)); lia.
Qed.

Lemma Hours_nonpos (d : time.Duration) : d < 0 → nonpos (time.Hours d).
Proof.
  intros Hd. unfold time.Hours.
  assert (HH : 0 < time.Hour) by done.
  pose proof (Z.quot_rem' d time.Hour) as Hqr.
  assert (Hd0 : d <= 0) by lia.
  pose proof (Z.rem_bound_pos_neg d time.Hour HH Hd0) as Hr.
  apply add_nonpos.
  - apply of_Z_nonpos.
    destruct (Z.le_gt_cases (Z.quot d time.Hour) 0) as [|Hq]; [done|].
    assert (time.Hour * 1 <= time.Hour * Z.quot d time.Hour)
      by (apply Z.mul_le_mono_nonneg_l; lia).
    lia.
  - apply div_nonpos; [apply of_Z_nonpos; lia | by vm_compute].
Qed.

(** The days published for a date in the past are never positive. *)
Lemma round_days_nonpos (t now : time.Time) :
  t < now → nonpos (round (div (time.Hours (time.Sub t now)) (of_Z 24)) 2).
Proof.
  intros H. rewrite round_2.
  apply div_nonpos; [|by vm_compute].
  apply Round_nonpos, mul_nonpos; [|by vm_compute].
  apply div_nonpos; [|by vm_compute].
  by apply Hours_nonpos, Sub_neg.
Qed.

End Signs.

(** ** The claims *)

(** C1, as the code has it. When the request succeeds, the body
    decodes and the DateLimit is non-empty and parses against the
    layout, the value published under the endpoint's key is
    [round(dateLimit.Sub(now).Hours() / 24, 2)] computed in float64:
    [round] at precision 2 multiplies by exactly 100, rounds that
    float64 product with [math.Round] (to the nearest integer, a
    product exactly halfway going away from zero) and divides by 100.
    The policy is one on the float64 product, not on the number of
    days. *)
Theorem fetchData_publishes_rounded_days
    (w : Env) (u : URLConfig) (st : State) (body : string) (r : APIResponse) (t : time.Time) :
  http_NewRequest w (URL u) = true →
  http_Do w (URL u) = Some body →
  json_Decode w body = Some r →
  DateLimit (Data r) ≠ "" →
  time.Parse (DateLimit (Data r)) = Some t →
  metric (fetchData w u st) !! key u
  = Some (round (div (time.Hours (time.Sub t (time_Now w))) (of_Z 24)) 2)
  ∧ (∀ x, round x 2 = div (math.Round (mul x (of_Z 100))) (of_Z 100))
  ∧ (∀ s m e, e < 0 →
       ∃ n : Z,
         math.Round (S754_finite s m e) = binary_normalize prec emax (cond_Zopp s n) 0 s
         ∧ 0 <= n
         ∧ 2 * Z.abs (n * 2 ^ (- e) - Z.pos m) <= 2 ^ (- e)
         ∧ (2 * Z.abs (n * 2 ^ (- e) - Z.pos m) = 2 ^ (- e) → Z.pos m < n * 2 ^ (- e))).
Proof.
  intros Hn Hdo Hdec Hne Hp. split; [|split].
  - rewrite fetchData_metric, lookup_insert_eq.
    by rewrite (published_success w u body r t).
  - apply round_2.
  - apply Round_nearest_away.
Qed.

Lemma fetchData_publishes_rounded_days_witness :
  http_NewRequest sample_env (URL endpoint_a) = true
  ∧ http_Do sample_env (URL endpoint_a) = Some "{DateLimit: 2099}"
  ∧ json_Decode sample_env "{DateLimit: 2099}" = Some (sample_response "2099-01-01 00:00:00")
  ∧ time.Parse "2099-01-01 00:00:00" = Some (4070908800 * time.Second)
  ∧ metric (fetchData sample_env endpoint_a initial) !! key endpoint_a = Some (of_Z 27394).
Proof.
  repeat (split; [reflexivity|]).
  destruct (fetchData_publishes_rounded_days sample_env endpoint_a initial
              "{DateLimit: 2099}" (sample_response "2099-01-01 00:00:00")
              (4070908800 * time.Second)) as [H _];
    [reflexivity | reflexivity | reflexivity | discriminate | reflexivity |].
  rewrite H. vm_compute. reflexivity.
Defined.

(** C1 as stated fails: there is no one round-half policy on the
    number of days.  A DateLimit exactly 1.005 days ahead is exactly
    halfway between 1.00 and 1.01 and publishes 1.01, which is not what
    half-to-even or half-toward-zero give; a DateLimit exactly 1.015
    days ahead is exactly halfway between 1.01 and 1.02 and publishes
    1.01 as well, which is not what half-away-from-zero or half-to-even
    give. *)
Lemma days_not_rounded_by_one_half_policy :
  let w1 := env_with "2024-01-02 00:07:12" new_year_2024 time.UTC in
  let w2 := env_with "2024-01-02 00:21:36" new_year_2024 time.UTC in
  let d1 := 86832 * time.Second in
  let d2 := 87696 * time.Second in
  time.Parse "2024-01-02 00:07:12" = Some (time_Now w1 + d1)
  ∧ time.Parse "2024-01-02 00:21:36" = Some (time_Now w2 + d2)
  ∧ 2 * (100 * d1 mod day) = day
  ∧ 2 * (100 * d2 mod day) = day
  ∧ metric (fetchData w1 endpoint_a initial) !! key endpoint_a = Some (of_decimal 101 2)
  ∧ metric (fetchData w2 endpoint_a initial) !! key endpoint_a = Some (of_decimal 101 2)
  ∧ hundredths_half_away d1 = 101 ∧ hundredths_half_even d1 = 100
  ∧ hundredths_half_down d1 = 100
  ∧ hundredths_half_away d2 = 102 ∧ hundredths_half_even d2 = 102
  ∧ hundredths_half_down d2 = 101
  ∧ of_decimal 101 2 ≠ of_decimal 100 2 ∧ of_decimal 101 2 ≠ of_decimal 102 2.
Proof.
  cbv zeta. repeat (split; [vm_compute; reflexivity|]).
  split; vm_compute; discriminate.
Qed.

(** C2. A transport failure, a malformed body, an empty DateLimit and
    an unparseable DateLimit each leave [-1] under the endpoint's key
    when the call returns, and the call returns a state and nothing
    else.  In a turn of the polling loop, where every call sees
    surroundings of its own, a call that fails so does not stop the
    turn or the loop: the turn ends running and the loop goes on to
    the next turn; every descriptor of the turn got its one [Set], in
    order, with the value of its own call, [-1] for the failed one;
    and at the end of the turn every key holds the value of the last
    call made for it. *)
Theorem fetchData_failure_publishes_minus_one (w : Env) (u : URLConfig) (st : State) :
  transport_failure w u ∨ malformed_body w u ∨ empty_DateLimit w u
  ∨ unparseable_DateLimit w u →
  metric (fetchData w u st) !! key u = Some minus_one
  ∧ (∀ (t : Turn) config j st0,
       readConfig (at_load t) "config.json" = Some config →
       URLs config !! j = Some u →
       at_call t j = w →
       ∃ st',
         cycle t st0 = Running st'
         ∧ (∀ ts, main_loop (t :: ts) st0 = main_loop ts st')
         ∧ sets (trace st') = sets (trace st0) ++ turn_sets t (URLs config)
         ∧ turn_sets t (URLs config) !! j = Some (URL u, OriginPrometheus u, minus_one)
         ∧ ∀ i u', URLs config !! i = Some u' →
                   key u' ∉ key <$> drop (S i) (URLs config) →
                   metric st' !! key u' = Some (published (at_call t i) u')).
Proof.
  intros Hfail. split.
  - by rewrite fetchData_metric, lookup_insert_eq, published_failure.
  - intros t config j st0 Hcfg Hj Hw. eexists. split; [by apply cycle_running|].
    split; [|split; [|split]].
    + intros ts. simpl. by rewrite (cycle_running t st0 config Hcfg).
    + apply cycle_sets.
    + unfold turn_sets. rewrite list_lookup_imap, Hj. simpl.
      by rewrite Hw, published_failure.
    + intros i u' Hi Hk. simpl. by apply turn_jobs_own.
Qed.

Lemma fetchData_failure_publishes_minus_one_witness :
  transport_failure sample_env endpoint_b
  ∧ malformed_body sample_env endpoint_c
  ∧ empty_DateLimit (env_with "" new_year_2024 time.UTC) endpoint_a
  ∧ unparseable_DateLimit (env_with "01/02/2099" new_year_2024 time.UTC) endpoint_a
  ∧ metric (fetchData sample_env endpoint_b initial) !! key endpoint_b = Some minus_one
  ∧ metric (fetchData sample_env endpoint_c initial) !! key endpoint_c = Some minus_one
  ∧ metric (fetchData (env_with "" new_year_2024 time.UTC) endpoint_a initial) !! key endpoint_a
    = Some minus_one
  ∧ metric (fetchData (env_with "01/02/2099" new_year_2024 time.UTC) endpoint_a initial)
      !! key endpoint_a = Some minus_one
  ∧ ∃ st',
      cycle (varying dup_env [flag_env; sample_env; sample_env]) initial = Running st'
      ∧ (sets (trace st')).*2 = [minus_one; of_Z 27394; minus_one]
      ∧ metric st' !! key endpoint_a = Some (of_Z 27394)
      ∧ metric st' !! key endpoint_b = Some minus_one.
Proof.
  assert (H1 : transport_failure sample_env endpoint_b) by reflexivity.
  assert (H2 : malformed_body sample_env endpoint_c)
    by (exists "<html>"; split; reflexivity).
  assert (H3 : empty_DateLimit (env_with "" new_year_2024 time.UTC) endpoint_a)
    by (exists "body", (sample_response ""); repeat split; reflexivity).
  assert (H4 : unparseable_DateLimit (env_with "01/02/2099" new_year_2024 time.UTC) endpoint_a)
    by (exists "body", (sample_response "01/02/2099"); repeat split; reflexivity).
  repeat (split; [assumption|]).
  split; [|split; [|split; [|split]]].
  - apply (fetchData_failure_publishes_minus_one sample_env endpoint_b initial). by left.
  - apply (fetchData_failure_publishes_minus_one sample_env endpoint_c initial).
    right. by left.
  - apply (fetchData_failure_publishes_minus_one _ endpoint_a initial).
    right. right. by left.
  - apply (fetchData_failure_publishes_minus_one _ endpoint_a initial).
    right. right. by right.
  - destruct (fetchData_failure_publishes_minus_one sample_env endpoint_b initial
                (or_introl H1)) as [_ Hturn].
    destruct (Hturn (varying dup_env [flag_env; sample_env; sample_env])
                {| URLs := [endpoint_a; endpoint_a_bis; endpoint_b] |} 2%nat initial
                eq_refl eq_refl eq_refl) as (st' & Hc & _ & Hsets & _ & Hown).
    exists st'. split; [exact Hc|]. split; [|split].
    + rewrite Hsets. vm_compute. reflexivity.
    + change (key endpoint_a) with (key endpoint_a_bis).
      rewrite (Hown 1%nat endpoint_a_bis eq_refl).
      * vm_compute. reflexivity.
      * apply (bool_decide_unpack (_ ∉ _)). vm_compute. reflexivity.
    + rewrite (Hown 2%nat endpoint_b eq_refl).
      * vm_compute. reflexivity.
      * apply (bool_decide_unpack (_ ∉ _)). vm_compute. reflexivity.
Defined.

(** C6. One call of [fetchData] sets exactly one value, on the child
    of [metric] under its own endpoint's (url, origin_prometheus) key;
    every other entry is unchanged.  A batch of calls for endpoints
    with distinct keys, from an empty vector, leaves as many entries as
    calls, each holding the value of its own call. *)
Theorem fetchData_writes_own_key_only (w : Env) (u : URLConfig) (st : State) :
  sets (trace (fetchData w u st))
  = sets (trace st) ++ [(URL u, OriginPrometheus u, published w u)]
  ∧ metric (fetchData w u st) = <[key u := published w u]> (metric st)
  ∧ (∀ k, k ≠ key u → metric (fetchData w u st) !! k = metric st !! k)
  ∧ (∀ jobs : list (Env * URLConfig),
       NoDup ((key ∘ snd) <$> jobs) →
       size (metric (fetchAll jobs initial)) = length jobs
       ∧ ∀ w' u', (w', u') ∈ jobs →
           metric (fetchAll jobs initial) !! key u' = Some (published w' u')).
Proof.
  split; [apply fetchData_sets|]. split; [apply fetchData_metric|]. split.
  - intros k Hk. by rewrite fetchData_metric, lookup_insert_ne.
  - intros jobs Hnd. split.
    + rewrite <- size_dom, fetchAll_dom. simpl.
      rewrite dom_empty_L, (right_id_L ∅ (∪)), size_list_to_set by done.
      by rewrite length_fmap.
    + intros w' u' Hin. by apply fetchAll_own.
Qed.

Lemma fetchData_writes_own_key_only_witness :
  let jobs := [(sample_env, endpoint_a); (sample_env, endpoint_b);
               (env_with "2023-12-30 12:00:00" new_year_2024 time.UTC, endpoint_c)] in
  NoDup ((key ∘ snd) <$> jobs)
  ∧ size (metric (fetchAll jobs initial)) = 3%nat
  ∧ metric (fetchAll jobs initial) !! key endpoint_a = Some (of_Z 27394)
  ∧ metric (fetchAll jobs initial) !! key endpoint_b = Some minus_one
  ∧ metric (fetchAll jobs initial) !! key endpoint_c = Some minus_one.
Proof.
  intros jobs.
  assert (Hnd : NoDup ((key ∘ snd) <$> jobs)).
  { apply (bool_decide_unpack (NoDup ((key ∘ snd) <$> jobs))). vm_compute. reflexivity. }
  split; [exact Hnd|].
  destruct (fetchData_writes_own_key_only sample_env endpoint_a initial)
    as (_ & _ & _ & Hjobs).
  destruct (Hjobs jobs Hnd) as [Hsize Hown].
  split; [exact Hsize|].
  split; [|split].
  - rewrite (Hown sample_env endpoint_a) by (unfold jobs; rewrite !elem_of_cons; auto).
    vm_compute. reflexivity.
  - rewrite (Hown sample_env endpoint_b) by (unfold jobs; rewrite !elem_of_cons; auto).
    vm_compute. reflexivity.
  - rewrite (Hown (env_with "2023-12-30 12:00:00" new_year_2024 time.UTC) endpoint_c)
      by (unfold jobs; rewrite !elem_of_cons; auto).
    vm_compute. reflexivity.
Defined.

(** C10. The state [fetchData] leaves depends on the decoded response
    through [Data.DateLimit] alone: two environments that agree on the
    request, the transport and the clock, and whose decoded responses
    agree on [DateLimit], give the same state, whatever [Status],
    [Message], [Error] and [Data.AuthorizerDate] are. *)
Theorem fetchData_ignores_diagnostic_fields (w1 w2 : Env) (u : URLConfig) (st : State) :
  http_NewRequest w1 (URL u) = http_NewRequest w2 (URL u) →
  http_Do w1 (URL u) = http_Do w2 (URL u) →
  time_Now w1 = time_Now w2 →
  (∀ body, http_Do w1 (URL u) = Some body →
     (DateLimit ∘ Data) <$> json_Decode w1 body = (DateLimit ∘ Data) <$> json_Decode w2 body) →
  fetchData w1 u st = fetchData w2 u st.
Proof.
  intros Hn Hdo Hnow Hdec. unfold fetchData. rewrite <- Hn, <- Hdo, <- Hnow.
  destruct (http_NewRequest w1 (URL u)); simpl; [|done].
  destruct (http_Do w1 (URL u)) as [body|]; [|done].
  specialize (Hdec body eq_refl).
  destruct (json_Decode w1 body) as [r1|], (json_Decode w2 body) as [r2|];
    simpl in Hdec; try discriminate; [|done].
  injection Hdec as Hdl. by rewrite <- Hdl.
Qed.

Lemma fetchData_ignores_diagnostic_fields_witness :
  let w1 := env_serving (sample_response "2099-01-01 00:00:00") new_year_2024 time.UTC in
  let w2 := env_serving (other_response "2099-01-01 00:00:00") new_year_2024 time.UTC in
  json_Decode w1 "body" ≠ json_Decode w2 "body"
  ∧ fetchData w1 endpoint_a initial = fetchData w2 endpoint_a initial.
Proof.
  intros w1 w2. split; [discriminate|].
  apply (fetchData_ignores_diagnostic_fields w1 w2 endpoint_a initial);
    [reflexivity | reflexivity | reflexivity |].
  intros body [= <-]. reflexivity.
Defined.

(** C3. When the configuration named at startup loads, [init] goes on
    to [main] with a gauge vector whose entries are exactly the keys of
    the configured descriptors, every one at [-1]; the only values set
    so far are these, one per descriptor, and [main] (which serves the
    scrape endpoint and polls) starts from this state. *)
Theorem init_sets_every_descriptor_to_minus_one (w : Env) (config : Config) :
  readConfig w (default "config.json" (flag_config w)) = Some config →
  ∃ st,
    init w initial = Running st
    ∧ (∀ ws, process w ws = main_loop ws st)
    ∧ dom (metric st) = list_to_set (key <$> URLs config)
    ∧ (∀ u, u ∈ URLs config → metric st !! key u = Some minus_one)
    ∧ (∀ k v, metric st !! k = Some v → v = minus_one)
    ∧ sets (trace st) = (fun u => (URL u, OriginPrometheus u, minus_one)) <$> URLs config
    ∧ (NoDup (key <$> URLs config) → size (metric st) = length (URLs config)).
Proof.
  intros Hcfg. eexists. split; [by apply init_running|].
  split; [intros ws; unfold process; by rewrite (init_running _ _ _ Hcfg)|].
  split; [rewrite init_pass_dom; simpl; by rewrite dom_empty_L, (right_id_L ∅ (∪))|].
  split; [intros u Hu; by apply init_pass_own|].
  split; [intros k v Hv; by apply init_pass_values in Hv as [?|?]|].
  split; [by rewrite init_pass_sets|].
  intros Hnd. rewrite <- size_dom, init_pass_dom. simpl.
  rewrite dom_empty_L, (right_id_L ∅ (∪)), size_list_to_set by done.
  by rewrite length_fmap.
Qed.

Lemma init_sets_every_descriptor_to_minus_one_witness :
  readConfig sample_env (default "config.json" (flag_config sample_env))
  = Some {| URLs := [endpoint_a; endpoint_b; endpoint_c] |}
  ∧ ∃ st,
      init sample_env initial = Running st
      ∧ metric st !! key endpoint_a = Some minus_one
      ∧ metric st !! key endpoint_b = Some minus_one
      ∧ metric st !! key endpoint_c = Some minus_one
      ∧ size (metric st) = 3%nat.
Proof.
  split; [reflexivity|].
  destruct (init_sets_every_descriptor_to_minus_one sample_env
              {| URLs := [endpoint_a; endpoint_b; endpoint_c] |} eq_refl)
    as (st & Hinit & _ & _ & Hown & _ & _ & Hsize).
  exists st. split; [exact Hinit|].
  repeat split; try (apply Hown; simpl; rewrite !elem_of_cons; auto).
  apply Hsize. apply (bool_decide_unpack (NoDup _)). vm_compute. reflexivity.
Defined.



(** C7. A configuration that fails to load is fatal wherever it is
    read: in [init] the process logs and exits with status 1 before
    [main]; in a later turn of the polling loop it logs and exits with
    status 1 as well, after the turns that loaded.  As long as the
    configuration loads the loop goes on, whatever the endpoints do. *)
Theorem config_load_failure_is_fatal :
  (∀ w st ws,
     readConfig w (default "config.json" (flag_config w)) = None →
     init w st = Exited 1 (emit (LogFatalf "Error reading config file: %v") st)
     ∧ process w ws = Exited 1 (emit (LogFatalf "Error reading config file: %v") initial))
  ∧ (∀ (ts1 : list Turn) (t : Turn) (ts2 : list Turn) st,
       Forall config_loads ts1 → readConfig (at_load t) "config.json" = None →
       ∃ st', main_loop ts1 st = Running st'
              ∧ main_loop (ts1 ++ t :: ts2) st
                = Exited 1 (emit (LogFatalf "Error reading config file: %v") st'))
  ∧ (∀ (ts : list Turn) st, Forall config_loads ts → ∃ st', main_loop ts st = Running st').
Proof.
  split; [|split].
  - intros w st ws H. unfold process, init. rewrite H. done.
  - intros ts1 t ts2 st Hall H.
    destruct (main_loop_running ts1 st Hall) as [st' Hst']. exists st'.
    split; [done|]. rewrite (main_loop_app _ _ _ _ Hst'). simpl.
    unfold cycle. by rewrite H.
  - apply main_loop_running.
Qed.

Lemma config_load_failure_is_fatal_witness :
  let broken := env_with "2099-01-01 00:00:00" new_year_2024 time.UTC in
  let turn := varying sample_env [sample_env; flag_env; bad_url_env] in
  readConfig broken (default "config.json" (flag_config broken)) = None
  ∧ Forall config_loads [turn; steady sample_env]
  ∧ init broken initial = Exited 1 (emit (LogFatalf "Error reading config file: %v") initial)
  ∧ (∃ st', main_loop [turn; steady sample_env; steady broken; steady sample_env] initial
            = Exited 1 (emit (LogFatalf "Error reading config file: %v") st'))
  ∧ (∃ st', main_loop [turn; steady sample_env] initial = Running st').
Proof.
  intros broken turn.
  assert (Hb : readConfig broken (default "config.json" (flag_config broken)) = None)
    by reflexivity.
  assert (Hs : Forall config_loads [turn; steady sample_env])
    by (repeat constructor; eexists; reflexivity).
  destruct config_load_failure_is_fatal as (Hinit & Hlater & Hrun).
  split; [exact Hb|]. split; [exact Hs|]. split; [|split].
  - apply (Hinit broken initial [] Hb).
  - destruct (Hlater [turn; steady sample_env] (steady broken) [steady sample_env]
                initial Hs Hb) as (st' & _ & H). exists st'. exact H.
  - apply (Hrun _ initial Hs).
Defined.

(** C9. The [-config] flag is honoured by [init] alone.  [init] sets
    the keys of the file the flag names; a turn of the polling loop
    sets the keys of the file ["config.json"], whatever the flag says
    and whatever its fetches see; and with a flag naming another file
    the endpoint polled need not be one that was initialised. *)
Theorem config_flag_read_only_at_startup :
  (∀ w p config,
     flag_config w = Some p → readConfig w p = Some config →
     ∃ st0, init w initial = Running st0
            ∧ dom (metric st0) = list_to_set (key <$> URLs config))
  ∧ (∀ (t : Turn) config st,
       readConfig (at_load t) "config.json" = Some config →
       ∃ st', cycle t st = Running st'
              ∧ (sets (trace st')).*1 = (sets (trace st)).*1 ++ (key <$> URLs config))
  ∧ (∃ w p st0,
       flag_config w = Some p ∧ p ≠ "config.json"
       ∧ init w initial = Running st0
       ∧ dom (metric st0) = {[ key endpoint_a ]}
       ∧ ∀ calls, ∃ st1,
           cycle {| at_load := w; at_call := calls |} st0 = Running st1
           ∧ (sets (trace st1)).*1 = [key endpoint_a; key endpoint_b]).
Proof.
  split; [|split].
  - intros w p config Hflag Hcfg. eexists. split.
    + apply init_running. rewrite Hflag. exact Hcfg.
    + rewrite init_pass_dom. simpl. by rewrite dom_empty_L, (right_id_L ∅ (∪)).
  - intros t config st Hcfg. eexists. split; [by apply cycle_running|].
    by rewrite cycle_sets, fmap_app, turn_sets_keys.
  - set (st0 := foldl (fun st urlConfig => init_metric urlConfig st) initial [endpoint_a]).
    exists flag_env, "prod.json", st0.
    split; [reflexivity|]. split; [discriminate|].
    split; [by apply (init_running flag_env initial {| URLs := [endpoint_a] |})|].
    split.
    + unfold st0. rewrite init_pass_dom. simpl.
      by rewrite dom_empty_L, !(right_id_L ∅ (∪)).
    + intros calls. eexists. split.
      * by apply (cycle_running {| at_load := flag_env; at_call := calls |} st0
                    {| URLs := [endpoint_b] |}).
      * rewrite cycle_sets, fmap_app, turn_sets_keys. unfold st0.
        rewrite init_pass_sets. reflexivity.
Qed.

Lemma config_flag_read_only_at_startup_witness :
  flag_config flag_env = Some "prod.json"
  ∧ readConfig flag_env "prod.json" = Some {| URLs := [endpoint_a] |}
  ∧ readConfig flag_env "config.json" = Some {| URLs := [endpoint_b] |}
  ∧ (∃ st0, init flag_env initial = Running st0
            ∧ dom (metric st0) = list_to_set (key <$> [endpoint_a]))
  ∧ (∃ st', cycle (varying flag_env [sample_env]) initial = Running st'
            ∧ (sets (trace st')).*1 = [] ++ (key <$> [endpoint_b])).
Proof.
  destruct config_flag_read_only_at_startup as (Hinit & Hcycle & _).
  repeat (split; [reflexivity|]). split.
  - apply (Hinit flag_env "prod.json" {| URLs := [endpoint_a] |}); reflexivity.
  - apply (Hcycle (varying flag_env [sample_env]) {| URLs := [endpoint_b] |} initial).
    reflexivity.
Defined.

(** C5, as the code has it. The DateLimit is parsed against the layout
    ["2006-01-02 15:04:05"], which has no zone, by [time.Parse]: a
    valid date and time written in that layout is read as that time in
    UTC; reading it in a location [loc] would give an instant earlier
    by the offset of [loc]; and the local zone of the process has no
    part in what [fetchData] does, so the days published are counted
    from the UTC reading. *)
Theorem DateLimit_is_read_in_UTC
    (w : Env) (u : URLConfig) (st : State) (f : time.Fields) (loc : time.Location) :
  time.validFields f →
  time.Parse (time.formatFields f)
  = Some (time.Date (time.year f) (time.month f) (time.day f)
            (time.hour f) (time.min f) (time.sec f) 0 time.UTC)
  ∧ time.ParseInLocation (time.formatFields f) loc
    = Some (time.Date (time.year f) (time.month f) (time.day f)
              (time.hour f) (time.min f) (time.sec f) 0 time.UTC
            - time.zoneOffset loc * time.Second)
  ∧ fetchData (with_Local loc w) u st = fetchData w u st
  ∧ (∀ body r,
       http_NewRequest w (URL u) = true →
       http_Do w (URL u) = Some body →
       json_Decode w body = Some r →
       DateLimit (Data r) = time.formatFields f →
       metric (fetchData (with_Local loc w) u st) !! key u
       = Some (round (div (time.Hours (time.Sub
                 (time.Date (time.year f) (time.month f) (time.day f)
                    (time.hour f) (time.min f) (time.sec f) 0 time.UTC)
                 (time_Now w))) (of_Z 24)) 2)).
Proof.
  intros Hf.
  assert (Hp : time.Parse (time.formatFields f)
               = Some (time.Date (time.year f) (time.month f) (time.day f)
                         (time.hour f) (time.min f) (time.sec f) 0 time.UTC)).
  { unfold time.Parse, time.parse. rewrite parseFields_formatFields by done.
    simpl. destruct Hf as (_ & _ & _ & _ & _ & _ & ->). reflexivity. }
  split; [exact Hp|]. split; [by rewrite ParseInLocation_Parse, Hp|].
  split; [reflexivity|].
  intros body r Hn Hdo Hdec Hdl.
  rewrite fetchData_metric, lookup_insert_eq. f_equal.
  apply (published_success (with_Local loc w) u body r); try done.
  - rewrite Hdl. discriminate.
  - by rewrite Hdl.
Qed.

Lemma DateLimit_is_read_in_UTC_witness :
  let f := {| time.year := 2099; time.month := 1; time.day := 1;
              time.hour := 0; time.min := 0; time.sec := 0; time.nsec := 0 |} in
  time.validFields f
  ∧ time.formatFields f = "2099-01-01 00:00:00"
  ∧ time.Parse "2099-01-01 00:00:00" = Some (4070908800 * time.Second)
  ∧ time.ParseInLocation "2099-01-01 00:00:00" (time.FixedZone 3600)
    = Some ((4070908800 - 3600) * time.Second)
  ∧ metric (fetchData (with_Local (time.FixedZone 3600) sample_env) endpoint_a initial)
      !! key endpoint_a = Some (of_Z 27394).
Proof.
  intros f.
  assert (Hf : time.validFields f) by (vm_compute; intuition discriminate).
  destruct (DateLimit_is_read_in_UTC sample_env endpoint_a initial f (time.FixedZone 3600) Hf)
    as (Hp & Hl & _ & Hv).
  split; [exact Hf|]. split; [reflexivity|].
  split; [exact Hp|]. split; [exact Hl|].
  rewrite (Hv "{DateLimit: 2099}" (sample_response "2099-01-01 00:00:00"))
    by reflexivity.
  vm_compute. reflexivity.
Defined.

(** C5 as stated fails: in a process whose local zone is one hour east
    of UTC, at the instant its clock shows 2024-01-01 00:00:00, a
    DateLimit of ["2024-01-01 00:00:00"] read in local time is now
    (zero days remaining); [fetchData] reads it an hour later and
    publishes 0.04 days. *)
Lemma DateLimit_is_not_read_in_local_time :
  let w := env_with "2024-01-01 00:00:00" (new_year_2024 - 3600 * time.Second)
             (time.FixedZone 3600) in
  time.ParseInLocation "2024-01-01 00:00:00" (time_Local w) = Some (time_Now w)
  ∧ time.Parse "2024-01-01 00:00:00" = Some (time_Now w + 3600 * time.Second)
  ∧ round (div (time.Hours (time.Sub (time_Now w) (time_Now w))) (of_Z 24)) 2 = of_Z 0
  ∧ metric (fetchData w endpoint_a initial) !! key endpoint_a = Some (of_decimal 4 2)
  ∧ of_decimal 4 2 ≠ of_Z 0.
Proof.
  cbv zeta. split; [reflexivity|]. split; [reflexivity|].
  split; [vm_compute; reflexivity|]. split; [vm_compute; reflexivity|].
  vm_compute. discriminate.
Qed.

(** C8, as the code has it. For a DateLimit that parses to an instant
    before now, the value published is the rounded days remaining,
    [round(dateLimit.Sub(now).Hours() / 24, 2)], by the same path as
    for a date ahead: no clamping and no [-1] in its place.  The value
    is a number and never positive: negative, or a zero when rounding
    to two decimals leaves nothing of it. *)
Theorem expired_DateLimit_publishes_nonpositive_days
    (w : Env) (u : URLConfig) (st : State) (body : string) (r : APIResponse) (t : time.Time) :
  http_NewRequest w (URL u) = true →
  http_Do w (URL u) = Some body →
  json_Decode w body = Some r →
  DateLimit (Data r) ≠ "" →
  time.Parse (DateLimit (Data r)) = Some t →
  t < time_Now w →
  metric (fetchData w u st) !! key u
  = Some (round (div (time.Hours (time.Sub t (time_Now w))) (of_Z 24)) 2)
  ∧ leb (round (div (time.Hours (time.Sub t (time_Now w))) (of_Z 24)) 2) (of_Z 0) = true
  ∧ math.IsNaN (round (div (time.Hours (time.Sub t (time_Now w))) (of_Z 24)) 2) = false.
Proof.
  intros Hn Hdo Hdec Hne Hp Hlt. split.
  - rewrite fetchData_metric, lookup_insert_eq.
    by rewrite (published_success w u body r t).
  - by apply nonpos_leb, round_days_nonpos.
Qed.

Lemma expired_DateLimit_publishes_nonpositive_days_witness :
  let w := env_with "2023-12-30 12:00:00" new_year_2024 time.UTC in
  time.Parse "2023-12-30 12:00:00" = Some (new_year_2024 - 36 * time.Hour)
  ∧ new_year_2024 - 36 * time.Hour < time_Now w
  ∧ metric (fetchData w endpoint_a initial) !! key endpoint_a = Some (of_decimal (-15) 1)
  ∧ ltb (of_decimal (-15) 1) (of_Z 0) = true.
Proof.
  intros w.
  assert (Hlt : new_year_2024 - 36 * time.Hour < time_Now w) by reflexivity.
  split; [reflexivity|]. split; [exact Hlt|].
  destruct (expired_DateLimit_publishes_nonpositive_days w endpoint_a initial "body"
              (sample_response "2023-12-30 12:00:00") (new_year_2024 - 36 * time.Hour))
    as (H & _ & _); [reflexivity | reflexivity | reflexivity | discriminate | reflexivity
                     | exact Hlt |].
  split; [|vm_compute; reflexivity].
  rewrite H. vm_compute. reflexivity.
Defined.

(** C8 as stated fails: a DateLimit one second in the past publishes
    negative zero, which is not a negative number, and a DateLimit one
    day in the past publishes [-1], the number that stands for a failed
    fetch. *)
Lemma expired_DateLimit_not_always_negative :
  let w1 := env_with "2023-12-31 23:59:59" new_year_2024 time.UTC in
  let w2 := env_with "2023-12-31 00:00:00" new_year_2024 time.UTC in
  time.Parse "2023-12-31 23:59:59" = Some (time_Now w1 - time.Second)
  ∧ metric (fetchData w1 endpoint_a initial) !! key endpoint_a = Some (S754_zero true)
  ∧ ltb (S754_zero true) (of_Z 0) = false
  ∧ time.Parse "2023-12-31 00:00:00" = Some (time_Now w2 - 24 * time.Hour)
  ∧ metric (fetchData w2 endpoint_a initial) !! key endpoint_a = Some minus_one.
Proof.
  cbv zeta. split; [reflexivity|]. split; [vm_compute; reflexivity|].
  split; [reflexivity|]. split; [reflexivity|]. vm_compute. reflexivity.
Qed.

(** * Further properties of the program *)

(** ** The stages of one fetch *)

Section Stages.

Implicit Types (st : State) (u : URLConfig) (w : Env).

(** A fetch either goes through every stage or stops at one of them
    with a log line and [-1]. *)
Lemma fetchData_cases w u st :
  (∃ t, fetch_succeeds w u t
        ∧ fetchData w u st
          = WithLabelValues_Set (URL u) (OriginPrometheus u)
              (round (div (time.Hours (time.Sub t (time_Now w))) (of_Z 24)) 2) st)
  ∨ ((∀ t, ¬ fetch_succeeds w u t)
     ∧ ∃ format,
         fetchData w u st
         = WithLabelValues_Set (URL u) (OriginPrometheus u) minus_one
             (emit (LogPrintf format (URL u)) st)).
Proof.
  unfold fetch_succeeds, fetchData.
  destruct (http_NewRequest w (URL u)) eqn:Hn; simpl.
  2: { right. split; [by intros t [? _]|]. by eexists. }
  destruct (http_Do w (URL u)) as [body|] eqn:Hdo.
  2: { right. split; [by intros t (_ & ? & ? & ? & _)|]. by eexists. }
  destruct (json_Decode w body) as [r|] eqn:Hdec.
  2: { right. split; [|by eexists].
       intros t (_ & body' & r' & [= <-] & Hd' & _). congruence. }
  destruct (decide (DateLimit (Data r) = "")) as [He|He].
  { right. split; [|by eexists].
    intros t (_ & body' & r' & [= <-] & Hd' & Hne & _). congruence. }
  destruct (time.Parse (DateLimit (Data r))) as [t|] eqn:Hp.
  2: { right. split; [|by eexists].
       intros t (_ & body' & r' & [= <-] & Hd' & _ & Hp'). congruence. }
  left. exists t. split; [|done]. split; [done|]. by exists body, r.
Qed.

Lemma published_cases w u :
  (∃ t, fetch_succeeds w u t
        ∧ published w u = round (div (time.Hours (time.Sub t (time_Now w))) (of_Z 24)) 2)
  ∨ ((∀ t, ¬ fetch_succeeds w u t) ∧ published w u = minus_one).
Proof.
  unfold published.
  destruct (fetchData_cases w u initial) as [(t & Hs & ->)|(Hf & format & ->)].
  - left. exists t. split; [done|]. rewrite metric_Set. unfold key.
    by rewrite lookup_insert_eq.
  - right. split; [done|]. rewrite metric_Set. unfold key.
    by rewrite lookup_insert_eq.
Qed.

End Stages.

Lemma list_to_set_remove_dups_keys (l : list (string * string)) :
  list_to_set (C := gset (string * string)) (remove_dups l) = list_to_set l.
Proof.
  apply set_eq. intros k. by rewrite !elem_of_list_to_set, elem_of_remove_dups.
Qed.

Lemma length_remove_dups_keys (l : list (string * string)) :
  (length (remove_dups l) <= length l)%nat.
Proof.
  induction l as [|k l IH]; simpl; [done|].
  destruct (decide_rel elem_of k l); simpl; lia.
Qed.

(** X1. Descriptors that share (url, origin_prometheus) share one entry
    of the gauge vector: after [init] the number of entries is the
    number of distinct keys of the configuration, never more than the
    number of descriptors, while one [Set] was made per descriptor. *)
Theorem init_duplicate_keys_share_an_entry (w : Env) (config : Config) (st : State) :
  readConfig w (default "config.json" (flag_config w)) = Some config →
  init w initial = Running st →
  size (metric st) = length (remove_dups (key <$> URLs config))
  ∧ (size (metric st) <= length (URLs config))%nat
  ∧ length (sets (trace st)) = length (URLs config).
Proof.
  intros Hcfg. rewrite (init_running _ _ _ Hcfg). intros [= <-].
  assert (Hsize : size (metric (foldl (fun st urlConfig => init_metric urlConfig st)
                                  initial (URLs config)))
                  = length (remove_dups (key <$> URLs config))).
  { rewrite <- size_dom, init_pass_dom. simpl.
    rewrite dom_empty_L, (right_id_L ∅ (∪)).
    rewrite <- (list_to_set_remove_dups_keys (key <$> URLs config)).
    apply size_list_to_set, NoDup_remove_dups. }
  split; [exact Hsize|]. split.
  - rewrite Hsize. etrans; [apply length_remove_dups_keys|]. by rewrite length_fmap.
  - rewrite init_pass_sets. simpl. by rewrite length_fmap.
Qed.

Lemma init_duplicate_keys_share_an_entry_witness :
  ∃ st,
    init dup_env initial = Running st
    ∧ length (URLs {| URLs := [endpoint_a; endpoint_a_bis; endpoint_b] |}) = 3%nat
    ∧ size (metric st) = 2%nat
    ∧ length (sets (trace st)) = 3%nat.
Proof.
  eexists. split; [reflexivity|]. split; [reflexivity|].
  destruct (init_duplicate_keys_share_an_entry dup_env
              {| URLs := [endpoint_a; endpoint_a_bis; endpoint_b] |} _ eq_refl eq_refl)
    as (Hsize & _ & Hsets).
  split; [rewrite Hsize; vm_compute; reflexivity | exact Hsets].
Defined.

(** X2. When no request can be built for the URL, [fetchData] logs
    that, sets [-1] and does nothing else: the transport, the decoder
    and the clock are not consulted, so any two environments in which
    the request cannot be built give the same state. *)
Theorem fetchData_request_error (w w' : Env) (u : URLConfig) (st : State) :
  http_NewRequest w (URL u) = false →
  http_NewRequest w' (URL u) = false →
  fetchData w u st = fetchData w' u st
  ∧ metric (fetchData w u st) = <[key u := minus_one]> (metric st)
  ∧ trace (fetchData w u st)
    = trace st ++ [LogPrintf "Error creating POST request for %s: %v" (URL u);
                   GaugeSet (URL u) (OriginPrometheus u) minus_one].
Proof.
  intros H H'. unfold fetchData. rewrite H, H'. simpl.
  split; [done|]. split; [done|]. by rewrite <- app_assoc.
Qed.

Lemma fetchData_request_error_witness :
  http_NewRequest bad_url_env (URL endpoint_a) = false
  ∧ http_Do bad_url_env (URL endpoint_a) = Some "{DateLimit: 2099}"
  ∧ metric (fetchData bad_url_env endpoint_a initial) !! key endpoint_a = Some minus_one.
Proof.
  split; [reflexivity|]. split; [reflexivity|].
  destruct (fetchData_request_error bad_url_env bad_url_env endpoint_a initial
              eq_refl eq_refl) as (_ & -> & _).
  apply lookup_insert_eq.
Defined.

(** X3. Every call of [fetchData] takes one of two shapes.  Either the
    fetch goes through every stage, and the call appends to the trace
    the one [Set] of the rounded days and no log line; or it stops at a
    stage, and the call appends one log line naming the URL and then
    the [Set] of [-1]. *)
Theorem fetchData_logs_iff_it_fails (w : Env) (u : URLConfig) (st : State) :
  (∃ t, fetch_succeeds w u t
        ∧ trace (fetchData w u st)
          = trace st ++ [GaugeSet (URL u) (OriginPrometheus u)
                           (round (div (time.Hours (time.Sub t (time_Now w))) (of_Z 24)) 2)])
  ∨ ((∀ t, ¬ fetch_succeeds w u t)
     ∧ ∃ format,
         trace (fetchData w u st)
         = trace st ++ [LogPrintf format (URL u);
                        GaugeSet (URL u) (OriginPrometheus u) minus_one]).
Proof.
  destruct (fetchData_cases w u st) as [(t & Hs & ->)|(Hf & format & ->)].
  - left. by exists t.
  - right. split; [done|]. exists format. simpl. by rewrite <- app_assoc.
Qed.

(** ** Composition of fetches *)

(** X4. Fetches compose on the gauge vector by last write: a second
    fetch for the same key makes the first irrelevant, and fetches for
    different keys can be swapped. *)
Theorem fetchData_last_write_wins (w1 w2 : Env) (u1 u2 : URLConfig) (st : State) :
  (key u1 = key u2 →
   metric (fetchData w2 u2 (fetchData w1 u1 st)) = metric (fetchData w2 u2 st))
  ∧ (key u1 ≠ key u2 →
     metric (fetchData w2 u2 (fetchData w1 u1 st))
     = metric (fetchData w1 u1 (fetchData w2 u2 st))).
Proof.
  rewrite !fetchData_metric. split.
  - intros ->. apply insert_insert_eq.
  - intros Hne. by apply insert_insert_ne.
Qed.

Lemma fetchData_last_write_wins_witness :
  key endpoint_a = key endpoint_a_bis
  ∧ key endpoint_a ≠ key endpoint_b
  ∧ metric (fetchData sample_env endpoint_a_bis (fetchData bad_url_env endpoint_a initial))
    = metric (fetchData sample_env endpoint_a_bis initial)
  ∧ metric (fetchData sample_env endpoint_b (fetchData sample_env endpoint_a initial))
    = metric (fetchData sample_env endpoint_a (fetchData sample_env endpoint_b initial)).
Proof.
  assert (H1 : key endpoint_a = key endpoint_a_bis) by reflexivity.
  assert (H2 : key endpoint_a ≠ key endpoint_b) by discriminate.
  split; [exact H1|]. split; [exact H2|]. split.
  - apply (fetchData_last_write_wins bad_url_env sample_env endpoint_a endpoint_a_bis initial).
    exact H1.
  - apply (fetchData_last_write_wins sample_env sample_env endpoint_a endpoint_b initial).
    exact H2.
Defined.

(** X5. The gauge vector a batch of fetches leaves depends on what each
    call saw, not on the order in which the calls were made, as long as
    no two of them share a key: any reordering of the calls, each with
    the surroundings it had, gives the same entries. *)
Theorem fetch_order_irrelevant (jobs jobs' : list (Env * URLConfig)) (st : State) :
  jobs ≡ₚ jobs' →
  NoDup ((key ∘ snd) <$> jobs) →
  metric (fetchAll jobs st) = metric (fetchAll jobs' st).
Proof.
  intros Hp Hnd.
  assert (Hnd' : NoDup ((key ∘ snd) <$> jobs')) by (by rewrite <- Hp).
  apply map_eq. intros k.
  destruct (decide (k ∈ (key ∘ snd) <$> jobs)) as [Hin|Hout].
  - apply list_elem_of_fmap in Hin as ([w u] & -> & Hin). simpl.
    rewrite (fetchAll_own jobs st w u Hnd Hin).
    rewrite (fetchAll_own jobs' st w u Hnd'); [done|]. by rewrite <- Hp.
  - rewrite (fetchAll_other jobs st k Hout).
    rewrite (fetchAll_other jobs' st k); [done|]. by rewrite <- Hp.
Qed.

Lemma fetch_order_irrelevant_witness :
  let early := env_with "2099-01-01 00:00:00" new_year_2024 time.UTC in
  let late := env_with "2099-01-01 00:00:00" (new_year_2024 + 36 * time.Hour) time.UTC in
  [(early, endpoint_a); (late, endpoint_b); (sample_env, endpoint_c)]
  ≡ₚ [(sample_env, endpoint_c); (late, endpoint_b); (early, endpoint_a)]
  ∧ NoDup ((key ∘ snd) <$> [(early, endpoint_a); (late, endpoint_b); (sample_env, endpoint_c)])
  ∧ metric (fetchAll [(early, endpoint_a); (late, endpoint_b); (sample_env, endpoint_c)]
              initial)
    = metric (fetchAll [(sample_env, endpoint_c); (late, endpoint_b); (early, endpoint_a)]
                initial).
Proof.
  intros early late.
  assert (Hp : [(early, endpoint_a); (late, endpoint_b); (sample_env, endpoint_c)]
               ≡ₚ [(sample_env, endpoint_c); (late, endpoint_b); (early, endpoint_a)]).
  { etrans; [apply perm_skip, perm_swap|]. etrans; [apply perm_swap|].
    apply perm_skip, perm_swap. }
  assert (Hnd : NoDup ((key ∘ snd) <$> [(early, endpoint_a); (late, endpoint_b);
                                         (sample_env, endpoint_c)])).
  { apply (bool_decide_unpack (NoDup _)). vm_compute. reflexivity. }
  split; [exact Hp|]. split; [exact Hnd|].
  apply (fetch_order_irrelevant _ _ initial Hp Hnd).
Defined.

(** ** The polling loop *)

Section Loop.

Implicit Types (st : State) (u : URLConfig) (t : Turn) (ts : list Turn).

Lemma cycle_turn_config t st st' :
  cycle t st = Running st' →
  st' = emit (Sleep (10 * time.Hour)) (fetchAll (turn_jobs t (turn_config t)) st).
Proof.
  unfold cycle, turn_config.
  destruct (readConfig (at_load t) "config.json") as [config|]; simpl.
  - by intros [= <-].
  - done.
Qed.

Lemma cycle_metric t st :
  metric (outcome_state (cycle t st))
  = metric (fetchAll (turn_jobs t (turn_config t)) st).
Proof.
  unfold cycle, turn_config.
  by destruct (readConfig (at_load t) "config.json") as [config|].
Qed.

Lemma cycle_dom t st :
  dom (metric (outcome_state (cycle t st)))
  = dom (metric st) ∪ list_to_set (key <$> turn_config t).
Proof. rewrite cycle_metric, fetchAll_dom, turn_jobs_keys. set_solver. Qed.

Lemma cycle_other t st k :
  k ∉ key <$> turn_config t →
  metric (outcome_state (cycle t st)) !! k = metric st !! k.
Proof.
  intros Hk. rewrite cycle_metric. apply fetchAll_other. by rewrite turn_jobs_keys.
Qed.

Lemma main_loop_cons_running t ts st st' :
  main_loop (t :: ts) st = Running st' →
  ∃ st1, cycle t st = Running st1 ∧ main_loop ts st1 = Running st'.
Proof.
  simpl. destruct (cycle t st) as [st1|c st1]; [|done]. intros H. by exists st1.
Qed.

Lemma main_loop_dom_mono ts st :
  dom (metric st) ⊆ dom (metric (outcome_state (main_loop ts st))).
Proof.
  revert st. induction ts as [|t ts IH]; intros st; simpl; [done|].
  pose proof (cycle_dom t st) as Hd.
  destruct (cycle t st) as [st1|c st1]; simpl in *.
  - etrans; [|apply IH]. rewrite Hd. set_solver.
  - rewrite Hd. set_solver.
Qed.

Lemma main_loop_dom ts st st' :
  main_loop ts st = Running st' →
  dom (metric st') = dom (metric st) ∪ list_to_set (key <$> (ts ≫= turn_config)).
Proof.
  revert st. induction ts as [|t ts IH]; intros st.
  - simpl. intros [= <-]. set_solver.
  - intros (st1 & Hc & Hl)%main_loop_cons_running.
    rewrite (IH _ Hl). pose proof (cycle_dom t st) as Hd. rewrite Hc in Hd.
    simpl in Hd. rewrite Hd.
    rewrite bind_cons, fmap_app, list_to_set_app_L. set_solver.
Qed.

Lemma main_loop_other ts st st' k :
  main_loop ts st = Running st' →
  k ∉ key <$> (ts ≫= turn_config) →
  metric st' !! k = metric st !! k.
Proof.
  revert st. induction ts as [|t ts IH]; intros st.
  - simpl. by intros [= <-].
  - intros (st1 & Hc & Hl)%main_loop_cons_running.
    rewrite bind_cons, fmap_app. intros [Hk1 Hk2]%not_elem_of_app.
    rewrite (IH _ Hl Hk2). pose proof (cycle_other t st k Hk1) as Hm.
    by rewrite Hc in Hm.
Qed.

Lemma main_loop_sets ts st st' :
  main_loop ts st = Running st' →
  sets (trace st')
  = sets (trace st) ++ (ts ≫= (fun t => turn_sets t (turn_config t))).
Proof.
  revert st. induction ts as [|t ts IH]; intros st.
  - simpl. intros [= <-]. by rewrite app_nil_r.
  - intros (st1 & Hc & Hl)%main_loop_cons_running.
    rewrite (IH _ Hl), bind_cons, app_assoc. f_equal.
    apply cycle_turn_config in Hc as ->.
    apply (cycle_sets t st {| URLs := turn_config t |}).
Qed.

Lemma sleeps_app tr1 tr2 : sleeps (tr1 ++ tr2) = sleeps tr1 ++ sleeps tr2.
Proof. unfold sleeps. apply omap_app. Qed.

Lemma fetchData_sleeps (w : Env) u st :
  sleeps (trace (fetchData w u st)) = sleeps (trace st).
Proof.
  destruct (fetchData_cases w u st) as [(t & _ & ->)|(_ & format & ->)]; simpl;
    rewrite !sleeps_app; simpl; by rewrite ?app_nil_r.
Qed.

Lemma fetchAll_sleeps (jobs : list (Env * URLConfig)) st :
  sleeps (trace (fetchAll jobs st)) = sleeps (trace st).
Proof.
  induction jobs as [|job jobs IH] using rev_ind; [done|].
  by rewrite fetchAll_snoc, fetchData_sleeps.
Qed.

Lemma main_loop_sleeps ts st st' :
  main_loop ts st = Running st' →
  sleeps (trace st') = sleeps (trace st) ++ replicate (length ts) (10 * time.Hour).
Proof.
  revert st. induction ts as [|t ts IH]; intros st.
  - simpl. intros [= <-]. by rewrite app_nil_r.
  - intros (st1 & Hc & Hl)%main_loop_cons_running.
    rewrite (IH _ Hl). apply cycle_turn_config in Hc as ->. simpl.
    rewrite sleeps_app, fetchAll_sleeps. simpl. by rewrite <- app_assoc.
Qed.

End Loop.

(** X6. The polling loop never removes an entry of the gauge vector.
    Whether it goes on or exits, the keys it started with are still
    there; while it runs, the keys are those it started with and those
    of every configuration it read, and a key that none of these
    configurations lists keeps the value it had. *)
Theorem main_loop_keeps_every_entry (ts : list Turn) (st : State) :
  dom (metric st) ⊆ dom (metric (outcome_state (main_loop ts st)))
  ∧ ∀ st', main_loop ts st = Running st' →
      dom (metric st') = dom (metric st) ∪ list_to_set (key <$> (ts ≫= turn_config))
      ∧ ∀ k, k ∉ key <$> (ts ≫= turn_config) → metric st' !! k = metric st !! k.
Proof.
  split; [apply main_loop_dom_mono|]. intros st' Hl. split.
  - by apply main_loop_dom.
  - intros k Hk. by apply (main_loop_other ts).
Qed.

Lemma main_loop_keeps_every_entry_witness :
  let ts := [steady flag_env; varying flag_env [sample_env]] in
  ∃ st0 st',
    init flag_env initial = Running st0
    ∧ main_loop ts st0 = Running st'
    ∧ (key endpoint_a ∉ key <$> (ts ≫= turn_config))
    ∧ metric st' !! key endpoint_a = Some minus_one
    ∧ dom (metric st') = {[ key endpoint_a; key endpoint_b ]}.
Proof.
  intros ts. eexists _, _. split; [reflexivity|]. split; [reflexivity|].
  assert (Hk : key endpoint_a ∉ key <$> (ts ≫= turn_config)).
  { apply (bool_decide_unpack (_ ∉ _)). vm_compute. reflexivity. }
  split; [exact Hk|].
  destruct (main_loop_keeps_every_entry ts
              (foldl (fun st urlConfig => init_metric urlConfig st) initial [endpoint_a]))
    as [_ H].
  destruct (H _ eq_refl) as [Hdom Hother].
  split.
  - etrans; [apply (Hother _ Hk)|]. apply lookup_insert_eq.
  - etrans; [apply Hdom|]. apply set_eq. intros k. vm_compute turn_config.
    simpl. rewrite dom_insert_L, dom_empty_L. set_solver.
Defined.

(** X7. While the loop runs, the value under the key of an endpoint is
    the value of the last call of [fetchData] made for that key, as
    that call saw the clock and the network: the call for the last
    descriptor with that key in the last turn whose configuration
    listed it, however many turns ago that was.  Later descriptors and
    later turns that do not have the key leave it alone. *)
Theorem main_loop_last_fetch_wins
    (ts1 ts2 : list Turn) (t : Turn) (us1 us2 : list URLConfig) (u : URLConfig)
    (st st' : State) :
  main_loop (ts1 ++ t :: ts2) st = Running st' →
  turn_config t = us1 ++ u :: us2 →
  key u ∉ key <$> us2 →
  key u ∉ key <$> (ts2 ≫= turn_config) →
  metric st' !! key u = Some (published (at_call t (length us1)) u).
Proof.
  intros Hl Hcfg Hrest Hlater.
  revert st Hl. induction ts1 as [|t0 ts1 IH]; intros st Hl.
  - simpl app in Hl. apply main_loop_cons_running in Hl as (st1 & Hc & Hl).
    rewrite (main_loop_other _ _ _ _ Hl Hlater).
    apply cycle_turn_config in Hc as ->. simpl. rewrite Hcfg.
    destruct (turn_jobs_middle t us1 u us2) as (jobs2 & -> & Hkeys).
    apply fetchAll_last. by rewrite Hkeys.
  - rewrite <- app_comm_cons in Hl.
    apply main_loop_cons_running in Hl as (st1 & _ & Hl). by apply (IH st1).
Qed.

Lemma main_loop_last_fetch_wins_witness :
  let t := varying dup_env [flag_env; sample_env; sample_env] in
  ∃ st',
    main_loop ([steady flag_env] ++ t :: [steady flag_env; steady flag_env]) initial
    = Running st'
    ∧ turn_config t = [endpoint_a] ++ endpoint_a_bis :: [endpoint_b]
    ∧ (key endpoint_a_bis ∉ key <$> [endpoint_b])
    ∧ (key endpoint_a_bis ∉ key <$> ([steady flag_env; steady flag_env] ≫= turn_config))
    ∧ published (at_call t 0) endpoint_a = minus_one
    ∧ metric st' !! key endpoint_a = Some (of_Z 27394).
Proof.
  intros t. eexists. split; [reflexivity|].
  assert (Hc : turn_config t = [endpoint_a] ++ endpoint_a_bis :: [endpoint_b]) by reflexivity.
  assert (Hk : key endpoint_a_bis ∉ key <$> [endpoint_b]).
  { apply (bool_decide_unpack (_ ∉ _)). vm_compute. reflexivity. }
  assert (Hl : key endpoint_a_bis
               ∉ key <$> ([steady flag_env; steady flag_env] ≫= turn_config)).
  { apply (bool_decide_unpack (_ ∉ _)). vm_compute. reflexivity. }
  split; [exact Hc|]. split; [exact Hk|]. split; [exact Hl|].
  split; [vm_compute; reflexivity|].
  change (key endpoint_a) with (key endpoint_a_bis).
  rewrite (main_loop_last_fetch_wins [steady flag_env] [steady flag_env; steady flag_env] t
             [endpoint_a] [endpoint_b] endpoint_a_bis initial _ eq_refl Hc Hk Hl).
  vm_compute. reflexivity.
Defined.

(** X8. The loop makes one fetch per descriptor per turn and nothing
    more: while it runs, the [Set]s it made are, turn by turn and in
    the order of each turn's configuration, one per descriptor, each
    with the value of its own call; and it slept once per turn, ten
    hours each time. *)
Theorem main_loop_one_fetch_per_descriptor_per_turn (ts : list Turn) (st st' : State) :
  main_loop ts st = Running st' →
  sets (trace st')
  = sets (trace st) ++ (ts ≫= (fun t => turn_sets t (turn_config t)))
  ∧ sleeps (trace st') = sleeps (trace st) ++ replicate (length ts) (10 * time.Hour).
Proof. intros Hl. split; [by apply main_loop_sets | by apply main_loop_sleeps]. Qed.

Lemma main_loop_one_fetch_per_descriptor_per_turn_witness :
  ∃ st',
    main_loop [varying dup_env [flag_env; sample_env; sample_env]; steady flag_env] initial
    = Running st'
    ∧ sets (trace st')
      = [(URL endpoint_a, OriginPrometheus endpoint_a, minus_one);
         (URL endpoint_a_bis, OriginPrometheus endpoint_a_bis, of_Z 27394);
         (URL endpoint_b, OriginPrometheus endpoint_b, minus_one);
         (URL endpoint_b, OriginPrometheus endpoint_b, minus_one)]
    ∧ sleeps (trace st') = [36000 * time.Second; 36000 * time.Second].
Proof.
  eexists. split; [reflexivity|].
  destruct (main_loop_one_fetch_per_descriptor_per_turn
              [varying dup_env [flag_env; sample_env; sample_env]; steady flag_env]
              initial _ eq_refl) as [Hsets Hsleeps].
  split; [rewrite Hsets; vm_compute; reflexivity | rewrite Hsleeps; reflexivity].
Defined.

(** ** Signs and numbers *)

Section Numbers.

Lemma has_sign_nonneg x : has_sign false x → nonneg x.
Proof. destruct x as [s|s| |s m e]; simpl; try done; by intros ->. Qed.

Lemma of_Z_nonneg n : 0 <= n → nonneg (of_Z n).
Proof.
  intros Hn. unfold of_Z, binary_normalize. destruct n as [|p|p]; [done| |lia].
  apply has_sign_nonneg, binary_round_sign.
Qed.

Lemma div_nonneg x c : nonneg x → pos_finite c → nonneg (div x c).
Proof.
  destruct c as [| | |[] mc ec]; try done.
  destruct x as [s|[]| |[] m e]; try done; intros _ _; simpl.
  unfold div, SFdiv, SFdiv_core_binary.
  match goal with
  | |- context [Z.div_eucl ?a ?b] =>
      assert (Ha : 0 <= a);
      [| pose proof (Z_div_mod a b ltac:(lia)) as Hdm;
         destruct (Z.div_eucl a b) as [q r] ]
  end.
  - destruct (e - ec - _) as [|p|p]; try lia. apply Z.shiftl_nonneg. lia.
  - apply has_sign_nonneg, binary_round_aux_sign. nia.
Qed.

Lemma mul_nonneg x c : nonneg x → pos_finite c → nonneg (mul x c).
Proof.
  destruct c as [| | |[] mc ec]; try done.
  destruct x as [s|[]| |[] m e]; try done; intros _ _; simpl.
  apply has_sign_nonneg, binary_round_aux_sign. lia.
Qed.

Lemma add_nonneg x y : nonneg x → nonneg y → nonneg (add x y).
Proof.
  destruct x as [[]|[]| |[] mx ex], y as [[]|[]| |[] my ey]; try done; intros _ _.
  unfold add, SFadd.
  destruct (shl_align mx ex _) as [ax ?], (shl_align my ey _) as [ay ?]. simpl.
  apply has_sign_nonneg, binary_round_sign.
Qed.

Lemma Round_nonneg x : nonneg x → nonneg (math.Round x).
Proof.
  destruct x as [s|[]| |[] m e]; try done; intros _. unfold math.Round.
  destruct (Z.leb_spec 0 e) as [|He]; [done|].
  assert (Hd : 0 < 2 ^ (- e)) by (apply Z.pow_pos_nonneg; lia).
  assert (Hq : 0 <= Z.pos m / 2 ^ (- e)) by (apply Z.div_pos; lia).
  set (n := if (2 ^ (- e) <=? 2 * (Z.pos m mod 2 ^ (- e)))%Z
            then Z.pos m / 2 ^ (- e) + 1 else Z.pos m / 2 ^ (- e)).
  assert (Hn : 0 <= n) by (unfold n; destruct (_ <=? _)%Z; lia).
  destruct n as [|p|p]; simpl; [done | | lia].
  apply has_sign_nonneg, binary_round_sign.
Qed.

Lemma Sub_nonneg (t u : time.Time) : u <= t → 0 <= time.Sub t u.
Proof.
  intros H. unfold time.Sub, time.minDuration, time.maxDuration.
  destruct (Z.ltb_spec (t - u) (- 2 ^ 63)); [lia|].
  destruct (Z.ltb_spec (2 ^ 63 - 1) (t - u)); lia.
Qed.

Lemma Hours_nonneg (d : time.Duration) : 0 <= d → nonneg (time.Hours d).
Proof.
  intros Hd. unfold time.Hours.
  assert (HH : 0 < time.Hour) by done.
  apply add_nonneg.
  - apply of_Z_nonneg, Z.quot_pos; lia.
  - apply div_nonneg; [|by vm_compute].
    apply of_Z_nonneg. by apply Z.rem_nonneg; [lia|].
Qed.

Lemma round_days_nonneg (t now : time.Time) :
  now <= t → nonneg (round (div (time.Hours (time.Sub t now)) (of_Z 24)) 2).
Proof.
  intros H. rewrite round_2.
  apply div_nonneg; [|by vm_compute].
  apply Round_nonneg, mul_nonneg; [|by vm_compute].
  apply div_nonneg; [|by vm_compute].
  by apply Hours_nonneg, Sub_nonneg.
Qed.

Lemma nonneg_not_negative x : nonneg x → ltb x (of_Z 0) = false ∧ math.IsNaN x = false.
Proof. by destruct x as [[]|[]| |[] m e]. Qed.

Lemma nonpos_not_positive x : nonpos x → ltb (of_Z 0) x = false ∧ math.IsNaN x = false.
Proof. by destruct x as [[]|[]| |[] m e]. Qed.

Lemma published_number (w : Env) (u : URLConfig) : math.IsNaN (published w u) = false.
Proof.
  destruct (published_cases w u) as [(t & _ & ->)|(_ & ->)]; [|done].
  destruct (Z.lt_ge_cases t (time_Now w)) as [Hlt|Hge].
  - by apply nonpos_not_positive, round_days_nonpos.
  - by apply nonneg_not_negative, round_days_nonneg.
Qed.

Lemma numbers_Set url origin v st :
  math.IsNaN v = false → numbers st → numbers (WithLabelValues_Set url origin v st).
Proof.
  intros Hv Hst k v'. rewrite metric_Set.
  destruct (decide ((url, origin) = k)) as [->|Hne].
  - rewrite lookup_insert_eq. by intros [= <-].
  - rewrite lookup_insert_ne by done. apply Hst.
Qed.

Lemma numbers_fetchData w u st : numbers st → numbers (fetchData w u st).
Proof.
  intros Hst k v. rewrite fetchData_metric.
  destruct (decide (key u = k)) as [->|Hne].
  - rewrite lookup_insert_eq. intros [= <-]. apply published_number.
  - rewrite lookup_insert_ne by done. apply Hst.
Qed.

Lemma numbers_fetchAll (jobs : list (Env * URLConfig)) st :
  numbers st → numbers (fetchAll jobs st).
Proof.
  intros Hst. induction jobs as [|job jobs IH] using rev_ind; [done|].
  rewrite fetchAll_snoc. by apply numbers_fetchData.
Qed.

Lemma numbers_init_pass (us : list URLConfig) st :
  numbers st → numbers (foldl (fun st urlConfig => init_metric urlConfig st) st us).
Proof.
  revert st. induction us as [|u us IH]; intros st Hst; simpl; [done|].
  apply IH. by apply numbers_Set.
Qed.

Lemma numbers_cycle (t : Turn) st : numbers st → numbers (outcome_state (cycle t st)).
Proof.
  intros Hst. unfold cycle.
  destruct (readConfig (at_load t) "config.json") as [config|]; simpl.
  - intros k v. simpl. by apply numbers_fetchAll.
  - done.
Qed.

Lemma numbers_main_loop (ts : list Turn) st :
  numbers st → numbers (outcome_state (main_loop ts st)).
Proof.
  revert st. induction ts as [|t ts IH]; intros st Hst; simpl; [done|].
  pose proof (numbers_cycle t st Hst) as Hc.
  destruct (cycle t st) as [st1|c st1]; simpl in *; [by apply IH|done].
Qed.

End Numbers.

(** X9. The gauge vector never holds NaN: whatever the configuration
    files, the endpoints and the clock do, and whether the process is
    still running or has exited, every value in the vector is a
    number. *)
Theorem process_never_publishes_NaN (w0 : Env) (ts : list Turn) :
  ∀ k v, metric (outcome_state (process w0 ts)) !! k = Some v → math.IsNaN v = false.
Proof.
  unfold process, init.
  destruct (readConfig w0 (default "config.json" (flag_config w0))) as [config|]; simpl.
  - pose proof (numbers_main_loop ts
        (foldl (fun st urlConfig => init_metric urlConfig st) initial (URLs config))) as H.
    destruct (main_loop ts _) as [st|c st]; simpl in *;
      apply H; apply numbers_init_pass; intros k v; simpl; by rewrite lookup_empty.
  - intros k v. by rewrite lookup_empty.
Qed.

Lemma process_never_publishes_NaN_witness :
  metric (outcome_state (process sample_env [steady sample_env])) !! key endpoint_a
  = Some (of_Z 27394)
  ∧ math.IsNaN (of_Z 27394) = false.
Proof.
  assert (H : metric (outcome_state (process sample_env [steady sample_env]))
                !! key endpoint_a
              = Some (of_Z 27394)) by (vm_compute; reflexivity).
  split; [exact H|].
  exact (process_never_publishes_NaN sample_env [steady sample_env] _ _ H).
Defined.

(** X10. The sign of a published value can be trusted.  When the fetch
    goes through and reads the DateLimit as the instant [t], a value
    below zero means [t] is in the past and a value above zero means
    [t] is ahead; a DateLimit of exactly now publishes plus zero. *)
Theorem published_sign_tells_expiry (w : Env) (u : URLConfig) (t : time.Time) :
  fetch_succeeds w u t →
  (ltb (published w u) (of_Z 0) = true → t < time_Now w)
  ∧ (ltb (of_Z 0) (published w u) = true → time_Now w < t)
  ∧ (t = time_Now w → published w u = S754_zero false).
Proof.
  intros (Hn & body & r & Hdo & Hdec & Hne & Hp).
  rewrite (published_success w u body r t Hn Hdo Hdec Hne Hp).
  split; [|split].
  - intros Hlt. destruct (Z.lt_ge_cases t (time_Now w)) as [|Hge]; [done|].
    apply round_days_nonneg, nonneg_not_negative in Hge as [Hge _]. congruence.
  - intros Hlt. destruct (Z.lt_ge_cases (time_Now w) t) as [|Hge]; [done|].
    apply Z.le_lteq in Hge as [Hge|Heq].
    + apply round_days_nonpos, nonpos_not_positive in Hge as [Hge _]. congruence.
    + assert (Hle : time_Now w <= t) by lia.
      apply round_days_nonneg in Hle. rewrite Heq in Hlt, Hle.
      unfold time.Sub in Hlt. rewrite Z.sub_diag in Hlt. by vm_compute in Hlt.
  - intros ->. unfold time.Sub. rewrite Z.sub_diag. by vm_compute.
Qed.

Lemma published_sign_tells_expiry_witness :
  let w := env_with "2023-12-30 12:00:00" new_year_2024 time.UTC in
  fetch_succeeds w endpoint_a (new_year_2024 - 36 * time.Hour)
  ∧ ltb (published w endpoint_a) (of_Z 0) = true
  ∧ new_year_2024 - 36 * time.Hour < time_Now w.
Proof.
  intros w.
  assert (Hs : fetch_succeeds w endpoint_a (new_year_2024 - 36 * time.Hour)).
  { split; [reflexivity|].
    exists "body", (sample_response "2023-12-30 12:00:00").
    split; [reflexivity|]. split; [reflexivity|]. split; [discriminate|reflexivity]. }
  assert (Hl : ltb (published w endpoint_a) (of_Z 0) = true) by (vm_compute; reflexivity).
  split; [exact Hs|]. split; [exact Hl|].
  destruct (published_sign_tells_expiry w endpoint_a _ Hs) as (H & _ & _).
  exact (H Hl).
Defined.

(** ** Rounding is symmetric *)

Section Symmetry.

Lemma binary_round_aux_opp s m e l :
  binary_round_aux prec emax (negb s) m e l = SFopp (binary_round_aux prec emax s m e l).
Proof.
  unfold binary_round_aux.
  destruct (shr_fexp prec emax m e l) as [mrs' e'].
  destruct (shr_fexp prec emax _ e' loc_Exact) as [mrs'' e''].
  destruct (shr_m mrs'') as [|p|p]; [done| |done].
  by destruct (e'' <=? emax - prec)%Z.
Qed.

Lemma binary_round_opp s m e :
  binary_round prec emax (negb s) m e = SFopp (binary_round prec emax s m e).
Proof.
  unfold binary_round. destruct (shl_align m e _) as [mz ez]. apply binary_round_aux_opp.
Qed.

Lemma mul_neg x c : mul (neg x) c = neg (mul x c).
Proof.
  destruct x as [sx|sx| |sx mx ex], c as [sc|sc| |sc mc ec]; simpl; try done;
    try (by destruct sx, sc).
  unfold mul, neg, SFmul. rewrite <- binary_round_aux_opp. by destruct sx, sc.
Qed.

Lemma div_neg x c : div (neg x) c = neg (div x c).
Proof.
  destruct x as [sx|sx| |sx mx ex], c as [sc|sc| |sc mc ec]; simpl; try done;
    try (by destruct sx, sc).
  unfold div, neg, SFdiv.
  destruct (SFdiv_core_binary prec emax (Z.pos mx) ex (Z.pos mc) ec) as [[mz ez] lz].
  rewrite <- binary_round_aux_opp. by destruct sx, sc.
Qed.

Lemma Round_neg x : math.Round (neg x) = neg (math.Round x).
Proof.
  destruct x as [s|s| |s m e]; simpl; try done.
  destruct (0 <=? e)%Z; [done|].
  match goal with
  | |- context [cond_Zopp s ?n] => generalize n
  end.
  intros n. destruct s, n as [|p|p]; simpl; try done;
    (apply (binary_round_opp true) || apply (binary_round_opp false)).
Qed.

End Symmetry.

(** X11. [round] is symmetric about zero at every precision:
    [round(-x, p) = -round(x, p)] for every float64 [x], zeros,
    infinities and NaN included, so a date as far behind now as another
    is ahead would publish the same magnitude. *)
Theorem round_is_odd (x : float64) (precision : Z) :
  round (neg x) precision = neg (round x precision).
Proof. unfold round. by rewrite mul_neg, Round_neg, div_neg. Qed.

(** ** What [time.Parse] accepts *)

Section Accepts.

Import time.









End Accepts.



(** ** Labels and flags *)

Section Labels.

Implicit Types (st : State) (u : URLConfig) (w : Env) (g : URLConfig → string).

Lemma readConfig_relabel g w path :
  readConfig (relabel_env g w) path
  = (fun c => {| URLs := relabel g <$> URLs c |}) <$> readConfig w path.
Proof. unfold readConfig. simpl. by destruct (ioutil_ReadFile w path). Qed.

Lemma fetchAll_relabel g (c : nat → Env) (us : list URLConfig) st :
  fetchAll (imap (fun i urlConfig => (relabel_env g (c i), urlConfig)) (relabel g <$> us)) st
  = fetchAll (imap (fun i urlConfig => (c i, urlConfig)) us) st.
Proof.
  revert c st. induction us as [|u us IH]; intros c st; [done|].
  rewrite fmap_cons, !imap_cons. unfold fetchAll in *. simpl.
  apply (IH (c ∘ S)).
Qed.

Lemma init_pass_relabel g (us : list URLConfig) st :
  foldl (fun st urlConfig => init_metric urlConfig st) st (relabel g <$> us)
  = foldl (fun st urlConfig => init_metric urlConfig st) st us.
Proof. revert st. induction us as [|u us IH]; intros st; simpl; [done|]. by rewrite IH. Qed.

Lemma cycle_relabel g (t : Turn) st : cycle (relabel_turn g t) st = cycle t st.
Proof.
  unfold cycle. simpl. rewrite readConfig_relabel.
  destruct (readConfig (at_load t) "config.json") as [config|]; simpl; [|done].
  unfold turn_jobs. simpl. by rewrite (fetchAll_relabel g (at_call t)).
Qed.

Lemma main_loop_relabel g (ts : list Turn) st :
  main_loop (relabel_turn g <$> ts) st = main_loop ts st.
Proof.
  revert st. induction ts as [|t ts IH]; intros st; simpl; [done|].
  rewrite cycle_relabel. by destruct (cycle t st).
Qed.

Lemma init_relabel g w st : init (relabel_env g w) st = init w st.
Proof.
  unfold init. rewrite readConfig_relabel. simpl.
  destruct (readConfig w _) as [config|]; simpl; [|done].
  by rewrite init_pass_relabel.
Qed.

End Labels.

(** X13. The display label of a descriptor takes no part in anything
    the process does: replacing every [label] of every configuration
    read, at startup and in every turn, leaves the outcome of the
    process, its gauge vector and its trace the same. *)
Theorem process_ignores_labels (g : URLConfig → string) (w0 : Env) (ts : list Turn) :
  process (relabel_env g w0) (relabel_turn g <$> ts) = process w0 ts.
Proof.
  unfold process. rewrite init_relabel.
  destruct (init w0 initial); [apply main_loop_relabel | done].
Qed.

(** X14. Started without [-config], or with [-config config.json],
    [init] and the polling loop read the same file: a first turn that
    reads its configuration in the surroundings of startup polls the
    endpoints that were initialised, whatever its fetches see, and
    adds no entry. *)
Theorem default_flag_polls_what_was_initialised (w : Env) (st0 : State) :
  default "config.json" (flag_config w) = "config.json" →
  init w initial = Running st0 →
  ∀ calls, ∃ st1,
    cycle {| at_load := w; at_call := calls |} st0 = Running st1
    ∧ dom (metric st1) = dom (metric st0)
    ∧ (sets (trace st1)).*1 = (sets (trace st0)).*1 ++ (sets (trace st0)).*1.
Proof.
  unfold init. intros ->.
  destruct (readConfig w "config.json") as [config|] eqn:Hcfg; [|done].
  intros [= <-] calls. eexists. split.
  { by apply (cycle_running {| at_load := w; at_call := calls |} _ config). }
  split.
  - simpl. rewrite fetchAll_dom, turn_jobs_keys, init_pass_dom. set_solver.
  - rewrite cycle_sets, fmap_app, turn_sets_keys. f_equal.
    rewrite init_pass_sets. simpl. by rewrite <- !list_fmap_compose.
Qed.

Lemma default_flag_polls_what_was_initialised_witness :
  default "config.json" (flag_config sample_env) = "config.json"
  ∧ ∃ st0 st1,
      init sample_env initial = Running st0
      ∧ cycle (varying sample_env [flag_env; sample_env]) st0 = Running st1
      ∧ dom (metric st1) = dom (metric st0).
Proof.
  split; [reflexivity|].
  destruct (default_flag_polls_what_was_initialised sample_env _ eq_refl eq_refl
              (fun i => nth i [flag_env; sample_env] sample_env))
    as (st1 & Hc & Hdom & _).
  eexists _, st1. split; [reflexivity|]. split; [exact Hc | exact Hdom].
Defined.

(** ** Looser spellings of a DateLimit *)

Section Loosely.

Import time.

Lemma cutspace_spaces (n : nat) (rest : string) : cutspace (spaces n rest) = cutspace rest.
Proof. induction n as [|n IH]; simpl; [done|]. exact IH. Qed.

Lemma skipSpace_spaces (n : nat) (rest : string) :
  (0 < n)%nat → skipSpace (spaces n rest) = Some (cutspace rest).
Proof.
  destruct n as [|n]; [lia|]. intros _. simpl. f_equal. apply cutspace_spaces.
Qed.

Lemma cutspace_digit (d : Z) (rest : string) :
  0 <= d <= 9 → cutspace (String (digitChar d) rest) = String (digitChar d) rest.
Proof. intros Hd. simpl. by destruct (digitChar_spec d Hd) as (_ & _ & ->). Qed.

Lemma getnum_one_digit (d : Z) (c : ascii) (rest : string) :
  0 <= d <= 9 → isDigitChar c = false →
  getnum (String (digitChar d) (String c rest)) false = Some (d, String c rest).
Proof.
  intros Hd Hc. unfold getnum.
  destruct (digitChar_spec d Hd) as (-> & -> & _). by rewrite Hc.
Qed.

Lemma digits_digitString (ds : list Z) :
  Forall (fun d => 0 <= d <= 9) ds → digits (digitString ds) = (ds, EmptyString).
Proof.
  induction 1 as [|d ds Hd _ IH]; simpl; [done|].
  destruct (digitChar_spec d Hd) as (-> & -> & _). simpl in IH. by rewrite IH.
Qed.

Lemma getfrac_digitString (c : ascii) (d : Z) (ds : list Z) :
  commaOrPeriod c = true → Forall (fun d => 0 <= d <= 9) (d :: ds) →
  getfrac (String c (digitString (d :: ds))) = (parseNanoseconds (d :: ds), EmptyString).
Proof.
  intros Hc Hds. pose proof (digits_digitString _ Hds) as Hdig.
  unfold getfrac. simpl digitString in *. rewrite Hc.
  apply Forall_cons in Hds as [Hd _].
  destruct (digitChar_spec d Hd) as (-> & _ & _). simpl andb.
  by rewrite Hdig.
Qed.

Lemma parseFields_formatLoosely (f : Fields) (n : nat) (short_hour : bool)
    (frac : option (ascii * list Z)) :
  validFields f → (0 < n)%nat →
  (short_hour = true → hour f < 10) →
  (∀ c ds, frac = Some (c, ds) →
           commaOrPeriod c = true ∧ ds ≠ [] ∧ Forall (fun d => 0 <= d <= 9) ds) →
  parseFields (formatLoosely f n short_hour frac)
  = Some {| year := year f; month := month f; day := day f; hour := hour f;
            min := min f; sec := sec f;
            nsec := match frac with
                    | Some (_, ds) => parseNanoseconds ds
                    | None => 0
                    end |}.
Proof.
  destruct f as [y mo d h mi s ns].
  intros (Hy & Hmo & Hd & Hh & Hmi & Hs & Hns) Hn Hshort Hfrac. simpl in *. subst ns.
  pose proof (daysIn_le_31 mo y) as H31.
  unfold parseFields, formatLoosely. cbn [year month day hour min sec nsec].
  rewrite getyear_pad4 by lia. cbn [mbind option_bind skipByte].
  rewrite Ascii.eqb_refl. cbn [mbind option_bind].
  rewrite getnum_pad2 by lia. cbn [mbind option_bind].
  rewrite option_guard_True by lia. cbn [mbind option_bind skipByte].
  rewrite Ascii.eqb_refl. cbn [mbind option_bind].
  rewrite getnum_pad2 by lia. cbn [mbind option_bind].
  rewrite skipSpace_spaces by done. cbn [mbind option_bind].
  assert (Hhour :
    getnum (cutspace ((if short_hour then String (digitChar h) else pad2 h)
              (String ":" (pad2 mi (String ":" (pad2 s
                 match frac with
                 | Some (c, ds) => String c (digitString ds)
                 | None => EmptyString
                 end)))))) false
    = Some (h, String ":" (pad2 mi (String ":" (pad2 s
                 match frac with
                 | Some (c, ds) => String c (digitString ds)
                 | None => EmptyString
                 end))))).
  { destruct short_hour.
    - specialize (Hshort eq_refl). rewrite cutspace_digit by lia.
      by apply getnum_one_digit; [lia|].
    - rewrite cutspace_pad2 by lia. by apply getnum_pad2; lia. }
  rewrite Hhour. cbn [mbind option_bind].
  rewrite option_guard_True by lia. cbn [mbind option_bind skipByte].
  rewrite Ascii.eqb_refl. cbn [mbind option_bind].
  rewrite getnum_pad2 by lia. cbn [mbind option_bind].
  rewrite option_guard_True by lia. cbn [mbind option_bind skipByte].
  rewrite Ascii.eqb_refl. cbn [mbind option_bind].
  rewrite getnum_pad2 by lia. cbn [mbind option_bind].
  rewrite option_guard_True by lia. cbn [mbind option_bind].
  destruct frac as [[c ds]|].
  - destruct (Hfrac c ds eq_refl) as (Hc & Hne & Hds).
    destruct ds as [|d0 ds]; [done|].
    rewrite getfrac_digitString by done.
    rewrite option_guard_True by done. cbn [mbind option_bind].
    rewrite option_guard_True by lia. reflexivity.
  - cbn [getfrac].
    rewrite option_guard_True by done. cbn [mbind option_bind].
    rewrite option_guard_True by lia. reflexivity.
Qed.

End Loosely.

(** X15. The DateLimit need not be spelled exactly as the layout
    shows.  For a valid date and time, [time.Parse] also accepts any
    number of spaces (at least one) between date and time, an hour
    below ten written in one digit, and a fraction of a second after a
    period or a comma; it returns the same UTC instant, plus the
    fraction read to the nanosecond. *)
Theorem Parse_accepts_looser_spellings (f : time.Fields) (n : nat) (short_hour : bool)
    (frac : option (ascii * list Z)) :
  time.validFields f → (0 < n)%nat →
  (short_hour = true → time.hour f < 10) →
  (∀ c ds, frac = Some (c, ds) →
           time.commaOrPeriod c = true ∧ ds ≠ []
           ∧ Forall (fun d => 0 <= d <= 9) ds) →
  time.Parse (formatLoosely f n short_hour frac)
  = Some (time.Date (time.year f) (time.month f) (time.day f) (time.hour f)
            (time.min f) (time.sec f) 0 time.UTC
          + match frac with
            | Some (_, ds) => time.parseNanoseconds ds
            | None => 0
            end).
Proof.
  intros Hf Hn Hshort Hfrac. unfold time.Parse, time.parse.
  rewrite parseFields_formatLoosely by done. simpl. f_equal. unfold time.Date. lia.
Qed.

Lemma Parse_accepts_looser_spellings_witness :
  let f := {| time.year := 2024; time.month := 2; time.day := 29;
              time.hour := 5; time.min := 4; time.sec := 5; time.nsec := 0 |} in
  time.validFields f
  ∧ formatLoosely f 3 true (Some (","%char, [2; 5])) = "2024-02-29   5:04:05,25"
  ∧ time.Parse "2024-02-29   5:04:05,25" = Some (1709183045 * time.Second + 250000000).
Proof.
  intros f.
  assert (Hf : time.validFields f) by (vm_compute; intuition discriminate).
  split; [exact Hf|]. split; [reflexivity|].
  apply (Parse_accepts_looser_spellings f 3 true (Some (","%char, [2; 5])) Hf).
  - lia.
  - intros _. reflexivity.
  - intros c ds [= <- <-]. split; [reflexivity|]. split; [discriminate|].
    repeat constructor; lia.
Defined.
